(** * Contribution cards: streak statistics and top contributed repositories

    Shallow embedding of the analysis code of
    [.github/generate-streak-stats.js] ([computeStreaks] and the day
    de-duplication of [main]) and of [.github/generate-contributor-stats.js]
    (the repository merge, the ranking and the placeholder of [main]).

    Networking, SVG templating and file output are not modelled; the data
    they hand to the analysis code are the inputs of the functions below. *)

From Stdlib Require Import String Ascii.
From Stdlib Require Import ZArith List Bool Lia.
From Stdlib Require Import Permutation Sorted OrderedTypeEx.
Import ListNotations.
Open Scope string_scope.
Open Scope list_scope.
Open Scope Z_scope.

(* ================================================================== *)
(** ** JavaScript primitives used by both scripts *)
(* ================================================================== *)

(** A JavaScript number as these scripts meet it: an integer, or [NaN]
    (what [parseInt] answers on a non-numeric string). *)
Inductive jsnum : Type :=
| NaN : jsnum
| Num : Z -> jsnum.

Module JsArray.

Section Sort.
Context {A : Type}.
(** The comparator handed to [Array.prototype.sort]: negative when its
    first argument goes before its second. *)
Variable comparefn : A -> A -> Z.

(** One step of the insertion sort that the engine runs: [pivot] is
    compared with the entries of the already sorted prefix as
    [comparefn pivot e] and goes in front of the first one for which the
    answer is negative (the engine finds this position by bisection, which
    is the same position on a sorted prefix). *)
Fixpoint insert (pivot : A) (l : list A) : list A :=
  match l with
  | [] => [pivot]
  | e :: l' =>
      if comparefn pivot e <? 0 then pivot :: e :: l'
      else e :: insert pivot l'
  end.

(** [arr.sort(comparefn)]: entries are taken left to right and inserted
    in the sorted prefix. An entry for which the comparator never answers
    a negative number stays behind the ones already placed, so entries
    that the comparator does not separate keep their input order. On
    longer arrays the engine sorts runs this way and merges them, taking
    the entry of the left run unless the comparator puts the entry of the
    right run before it, which gives the same array. *)
Definition sort (l : list A) : list A :=
  fold_left (fun acc x => insert x acc) l [].

(** The comparator puts [a] before [b]. *)
Definition before (a b : A) : bool := comparefn a b <? 0.

(** [b] may stay behind [a]: the comparator does not put [b] before [a]. *)
Definition follows (a b : A) : Prop := before b a = false.
End Sort.

(** [arr.slice(0, end)]: [NaN] is read as 0; a negative [end] counts from
    the end of the array; the result is clamped to the array. *)
Definition slice0 {A : Type} (end_ : jsnum) (l : list A) : list A :=
  let len := Z.of_nat (length l) in
  let relEnd := match end_ with NaN => 0 | Num z => z end in
  let final := if relEnd <? 0 then Z.max (len + relEnd) 0
               else Z.min relEnd len in
  firstn (Z.to_nat final) l.

End JsArray.

(** A JavaScript [Map] with string keys: [values()] enumerates in the order
    of first insertion, and [set] on a present key keeps its position. *)
Module JsMap.

Section Map.
Context {V : Type}.

Definition t := list (string * V).

Definition empty : t := [].

Fixpoint get (k : string) (m : t) : option V :=
  match m with
  | [] => None
  | (k', v) :: m' => if String.eqb k k' then Some v else get k m'
  end.

Fixpoint set (k : string) (v : V) (m : t) : t :=
  match m with
  | [] => [(k, v)]
  | (k', v') :: m' =>
      if String.eqb k k' then (k, v) :: m' else (k', v') :: set k v m'
  end.

Definition keys (m : t) : list string := map fst m.
Definition values (m : t) : list V := map snd m.
End Map.

Arguments t : clear implicits.

End JsMap.

(** Truthiness of a value that is [null] or a string: [null] and the empty
    string are falsy. *)
Definition truthy (v : option string) : bool :=
  match v with
  | None => false
  | Some s => negb (String.eqb s "")
  end.

(** [a || b] on such values. *)
Definition js_or (a b : option string) : option string :=
  if truthy a then a else b.

(* ================================================================== *)
(** ** generate-streak-stats.js *)
(* ================================================================== *)

Module Streak.

(** [{ date, count }] as [fetchYear] builds it; [date] is the ISO date
    string [YYYY-MM-DD] of the calendar. *)
Record Day : Type := mkDay { date : string; count : Z }.

Record StreakStats : Type := mkStats {
  totalContributions : Z;
  currentStreak : Z;
  currentStreakStart : option string;
  currentStreakEnd : option string;
  longestStreak : Z;
  longestStreakStart : option string;
  longestStreakEnd : option string;
  firstContribDate : string
}.

(** [(a, b) => (a.date < b.date ? -1 : 1)]; [<] on strings is the
    lexicographic order of the code units, which for the ASCII text of a
    date is the order of [String.ltb]. *)
Definition compareDays (a b : Day) : Z :=
  if String.ltb (date a) (date b) then -1 else 1.

(** The variables of the forward loop. *)
Record Fwd : Type := mkFwd {
  f_total : Z;
  f_longest : Z;
  f_longestStart : option string;
  f_longestEnd : option string;
  f_runStreak : Z;
  f_runStart : option string;
  f_first : option string
}.

Definition fwd_init : Fwd := mkFwd 0 0 None None 0 None None.

(** Body of [for (const day of days)]. *)
Definition fwd_step (s : Fwd) (day : Day) : Fwd :=
  let total := f_total s + count day in
  if 0 <? count day then
    let first := if negb (truthy (f_first s)) then Some (date day)
                 else f_first s in
    let runStart := if f_runStreak s =? 0 then Some (date day)
                    else f_runStart s in
    let runStreak := f_runStreak s + 1 in
    if f_longest s <? runStreak then
      mkFwd total runStreak runStart (Some (date day)) runStreak runStart first
    else
      mkFwd total (f_longest s) (f_longestStart s) (f_longestEnd s)
            runStreak runStart first
  else
    mkFwd total (f_longest s) (f_longestStart s) (f_longestEnd s)
          0 None (f_first s).

Definition forward (days : list Day) : Fwd := fold_left fwd_step days fwd_init.

(** The variables of the backward loop. *)
Record Cur : Type := mkCur {
  c_streak : Z;
  c_start : option string;
  c_end : option string
}.

Definition cur_init : Cur := mkCur 0 None None.

(** [for (let i = days.length - 1; i >= 0; i--)], on the entries from the
    most recent one; [isLast] is [i === days.length - 1]. *)
Fixpoint backward (today : string) (isLast : bool) (rdays : list Day)
    (s : Cur) : Cur :=
  match rdays with
  | [] => s
  | day :: rest =>
      if isLast && String.eqb (date day) today && (count day =? 0) then
        backward today false rest s
      else if 0 <? count day then
        backward today false rest
          (mkCur (c_streak s + 1) (Some (date day))
                 (if negb (truthy (c_end s)) then Some (date day)
                  else c_end s))
      else s
  end.

(** [days[0]?.date] *)
Definition first_date (days : list Day) : option string :=
  match days with
  | [] => None
  | d :: _ => Some (date d)
  end.

(** [computeStreaks(days)]; [today] is
    [new Date().toISOString().slice(0, 10)]. *)
Definition computeStreaks (today : string) (days : list Day) : StreakStats :=
  let days := JsArray.sort compareDays days in
  let f := forward days in
  let c := backward today true (rev days) cur_init in
  mkStats (f_total f)
          (c_streak c) (c_start c) (c_end c)
          (f_longest f) (f_longestStart f) (f_longestEnd f)
          (match js_or (js_or (f_first f) (first_date days)) (Some today) with
           | Some s => s
           | None => today
           end).

(** The de-duplication of [main]: body of [for (const day of allDays)]. *)
Definition dedup_step (dayMap : JsMap.t Day) (day : Day) : JsMap.t Day :=
  match JsMap.get (date day) dayMap with
  | None => JsMap.set (date day) day dayMap
  | Some existing =>
      if count existing <? count day then JsMap.set (date day) day dayMap
      else dayMap
  end.

Definition dedupMap (allDays : list Day) : JsMap.t Day :=
  fold_left dedup_step allDays JsMap.empty.

(** [uniqueDays = [...dayMap.values()]] *)
Definition uniqueDays (allDays : list Day) : list Day :=
  JsMap.values (dedupMap allDays).

End Streak.

(* ================================================================== *)
(** ** generate-contributor-stats.js *)
(* ================================================================== *)

Module Contrib.

(** One element of [commitContributionsByRepository]; the fields are the
    paths [entry.repository.nameWithOwner], [entry.repository.url],
    [entry.repository.stargazerCount], [entry.repository.isPrivate] and
    [entry.contributions.totalCount]. *)
Record Entry : Type := mkEntry {
  repository_nameWithOwner : string;
  repository_url : string;
  repository_stargazerCount : Z;
  repository_isPrivate : bool;
  contributions_totalCount : Z
}.

(** A value of [repoMap], and a row of the card. The placeholder row has no
    [url] property. *)
Record Repo : Type := mkRepo {
  nameWithOwner : string;
  url : option string;
  stars : Z;
  contributions : Z
}.

(** Body of [for (const entry of repos)]. [existing.contributions += ...]
    changes the object stored in the map, which keeps its position. *)
Definition merge_step (repoMap : JsMap.t Repo) (entry : Entry)
    : JsMap.t Repo :=
  if repository_isPrivate entry then repoMap
  else
    let key := repository_nameWithOwner entry in
    match JsMap.get key repoMap with
    | Some existing =>
        JsMap.set key
          (mkRepo (nameWithOwner existing) (url existing) (stars existing)
                  (contributions existing + contributions_totalCount entry))
          repoMap
    | None =>
        JsMap.set key
          (mkRepo key (Some (repository_url entry))
                  (repository_stargazerCount entry)
                  (contributions_totalCount entry))
          repoMap
    end.

(** What one year window hands over: [None] when the query failed (the
    [catch] logs a warning and the year is left out), otherwise the
    entries of [commitContributionsByRepository || []]. *)
Definition YearResult : Type := option (list Entry).

Definition merge_year (repoMap : JsMap.t Repo) (yr : YearResult)
    : JsMap.t Repo :=
  match yr with
  | None => repoMap
  | Some repos => fold_left merge_step repos repoMap
  end.

(** The loop [for (let year = startYear; year <= currentYear; year++)]. *)
Definition mergeYears (years : list YearResult) : JsMap.t Repo :=
  fold_left merge_year years JsMap.empty.

(** [(a, b) => b.contributions - a.contributions] *)
Definition compareRepos (a b : Repo) : Z := contributions b - contributions a.

(** [[...repoMap.values()].sort(...).slice(0, LIMIT)] *)
Definition ranking (LIMIT : jsnum) (repoMap : JsMap.t Repo) : list Repo :=
  JsArray.slice0 LIMIT (JsArray.sort compareRepos (JsMap.values repoMap)).

Definition placeholder : Repo := mkRepo "No contributions found" None 0 0.

(** [if (sorted.length === 0) sorted.push(placeholder)] *)
Definition with_placeholder (sorted : list Repo) : list Repo :=
  if Nat.eqb (length sorted) 0 then sorted ++ [placeholder] else sorted.

(** The rows that [main] passes to [generateSvg]. *)
Definition main_rows (LIMIT : jsnum) (years : list YearResult) : list Repo :=
  with_placeholder (ranking LIMIT (mergeYears years)).

End Contrib.

(* ================================================================== *)
(** ** Notions of the specification *)
(* ================================================================== *)

(** The calendar of the specification. The scripts never compute with
    calendar days: this module follows the words of the specification
    (consecutive calendar days, each date exactly one day after the
    previous) so that they can be compared with what the code does. *)
Module Calendar.

Definition digit (c : ascii) : option Z :=
  let n := Z.of_N (N_of_ascii c) in
  if (48 <=? n) && (n <=? 57) then Some (n - 48) else None.

Fixpoint number (cs : list ascii) (acc : Z) : option Z :=
  match cs with
  | [] => Some acc
  | c :: cs' =>
      match digit c with
      | Some d => number cs' (10 * acc + d)
      | None => None
      end
  end.

Definition leap (y : Z) : bool :=
  ((y mod 4 =? 0) && negb (y mod 100 =? 0)) || (y mod 400 =? 0).

Definition days_in_month (y m : Z) : Z :=
  if m =? 2 then (if leap y then 29 else 28)
  else if (m =? 4) || (m =? 6) || (m =? 9) || (m =? 11) then 30
  else 31.

(** Year, month and day of a date string [YYYY-MM-DD]. *)
Definition civil (s : string) : option (Z * Z * Z) :=
  match list_ascii_of_string s with
  | [y1; y2; y3; y4; sep1; m1; m2; sep2; d1; d2] =>
      if Ascii.eqb sep1 "-"%char && Ascii.eqb sep2 "-"%char then
        match number [y1; y2; y3; y4] 0, number [m1; m2] 0,
              number [d1; d2] 0 with
        | Some y, Some m, Some d =>
            if (1 <=? m) && (m <=? 12) && (1 <=? d)
               && (d <=? days_in_month y m)
            then Some (y, m, d) else None
        | _, _, _ => None
        end
      else None
  | _ => None
  end.

(** Number of days from 1970-01-01 to the given day of the proleptic
    Gregorian calendar. *)
Definition days_from_civil (y m d : Z) : Z :=
  let y' := if m <=? 2 then y - 1 else y in
  let era := y' / 400 in
  let yoe := y' - era * 400 in
  let mp := if 2 <? m then m - 3 else m + 9 in
  let doy := (153 * mp + 2) / 5 + d - 1 in
  let doe := yoe * 365 + yoe / 4 - yoe / 100 + doy in
  era * 146097 + doe - 719468.

Definition day_number (s : string) : option Z :=
  match civil s with
  | Some (y, m, d) => Some (days_from_civil y m d)
  | None => None
  end.

(** [b] is the calendar day after [a]. *)
Definition next_day (a b : string) : Prop :=
  exists n, day_number a = Some n /\ day_number b = Some (n + 1).

End Calendar.

Module Spec.
Import Streak.

(** [run] is a block of adjacent entries of [l]. *)
Definition run_in {A : Type} (l run : list A) : Prop :=
  exists pre suf, l = pre ++ run ++ suf.

(** [n] is the length of a longest block of adjacent entries of [l] that
    all satisfy [P]. *)
Definition longest_run {A : Type} (P : A -> Prop) (l : list A) (n : Z)
    : Prop :=
  (exists run, run_in l run /\ Forall P run /\ Z.of_nat (length run) = n) /\
  (forall run, run_in l run -> Forall P run -> Z.of_nat (length run) <= n).

(** [n] is the number of trailing entries of [l] that satisfy [P]: the
    last [n] entries do, and the entry before them, if any, does not. *)
Definition trailing_run {A : Type} (P : A -> Prop) (l : list A) (n : Z)
    : Prop :=
  exists pre suf,
    l = pre ++ suf /\ Forall P suf /\ Z.of_nat (length suf) = n /\
    (pre = [] \/ exists pre' x, pre = pre' ++ [x] /\ ~ P x).

(** The dates of a series never go down. *)
Definition ascending (l : list Day) : Prop :=
  StronglySorted (fun a b => String.ltb (date b) (date a) = false) l.

(** At most one entry per date. *)
Definition unique_dates (l : list Day) : Prop := NoDup (map date l).

(** Each date is exactly one day after the previous one. *)
Fixpoint consecutive_days (run : list Day) : Prop :=
  match run with
  | a :: (b :: _) as tl => Calendar.next_day (date a) (date b)
                           /\ consecutive_days tl
  | _ => True
  end.

(** A streak in the words of the glossary: [n] consecutive calendar days
    of the series, each with at least one contribution. *)
Definition calendar_streak (days : list Day) (n : Z) : Prop :=
  exists run,
    Forall (fun d => In d days /\ 1 <= count d) run /\
    consecutive_days run /\ Z.of_nat (length run) = n.

Definition longest_calendar_streak (days : list Day) (n : Z) : Prop :=
  calendar_streak days n /\ forall m, calendar_streak days m -> m <= n.

(** The last entry is today's with no contribution yet. *)
Definition last_is_idle_today (today : string) (l : list Day) : bool :=
  match rev l with
  | [] => false
  | d :: _ => String.eqb (date d) today && (count d =? 0)
  end.

(** The entries that count for the current streak: all of them, without
    the last one exactly when it is today's with no contribution yet. *)
Definition scanned (today : string) (l : list Day) : list Day :=
  if last_is_idle_today today l then removelast l else l.

End Spec.

(** Helper for the proofs: the longest prefix whose entries pass [p]. *)
Fixpoint take_while {A : Type} (p : A -> bool) (l : list A) : list A :=
  match l with
  | [] => []
  | x :: l' => if p x then x :: take_while p l' else []
  end.

(** Number of trailing entries that pass [p]. *)
Definition trail {A : Type} (p : A -> bool) (l : list A) : nat :=
  length (take_while p (rev l)).

(** The test [day.count > 0] of both loops of [computeStreaks]. *)
Definition contributed (d : Streak.Day) : bool := 0 <? Streak.count d.

(** Invariant of the forward loop of [computeStreaks] after the entries
    [l]: the running streak is the number of trailing entries with a
    contribution, the longest streak is the length of a longest run. *)
Definition fwd_inv (l : list Streak.Day) (s : Streak.Fwd) : Prop :=
  Streak.f_runStreak s = Z.of_nat (trail contributed l) /\
  Spec.longest_run (fun d => 1 <= Streak.count d) l (Streak.f_longest s).

(** Invariant of the de-duplication loop after the entries [seen]: no key
    twice; every stored day sits under its own date, was fetched, and has
    the largest count fetched for its date; every fetched date is a key. *)
Definition dedup_inv (seen : list Streak.Day) (m : JsMap.t Streak.Day)
    : Prop :=
  NoDup (JsMap.keys m) /\
  (forall k d, JsMap.get k m = Some d ->
     Streak.date d = k /\ In d seen /\
     forall e, In e seen -> Streak.date e = k ->
               Streak.count e <= Streak.count d) /\
  (forall e, In e seen -> JsMap.get (Streak.date e) m <> None).

(** The entries fetched over all year windows, in the order of the loop;
    a failed window contributes none. *)
Definition entries_of (years : list Contrib.YearResult)
    : list Contrib.Entry :=
  concat (map (fun yr => match yr with Some repos => repos | None => [] end)
              years).

(** The public entries fetched for the repository [key], in that order. *)
Definition seen (key : string) (es : list Contrib.Entry)
    : list Contrib.Entry :=
  filter (fun e => negb (Contrib.repository_isPrivate e)
                   && String.eqb (Contrib.repository_nameWithOwner e) key)
         es.

(** Sum of the contribution counts of entries. *)
Definition total (es : list Contrib.Entry) : Z :=
  fold_right (fun e acc => Contrib.contributions_totalCount e + acc) 0 es.

(** Invariant of the merge loop after the entries [es]: a repository is a
    key exactly when a public entry was fetched for it; its url and stars
    are those of the first such entry and its contributions the sum over
    all of them. *)
Definition merged_inv (es : list Contrib.Entry) (m : JsMap.t Contrib.Repo)
    : Prop :=
  forall key,
    JsMap.get key m =
    match seen key es with
    | [] => None
    | first :: later =>
        Some (Contrib.mkRepo key
                (Some (Contrib.repository_url first))
                (Contrib.repository_stargazerCount first)
                (total (first :: later)))
    end.

(** Contribution counts never go up along the list. *)
Definition descending (l : list Contrib.Repo) : Prop :=
  StronglySorted
    (fun a b => Contrib.contributions b <= Contrib.contributions a) l.

(** The repositories of [l] with [c] contributions, in the order of [l]. *)
Definition with_count (c : Z) (l : list Contrib.Repo) : list Contrib.Repo :=
  filter (fun r => Contrib.contributions r =? c) l.

(** The day series of the worked example. *)
Definition example_days : list Streak.Day :=
  [ Streak.mkDay "2024-01-01" 1; Streak.mkDay "2024-01-02" 1;
    Streak.mkDay "2024-01-03" 0; Streak.mkDay "2024-01-04" 1 ].

(** The worked example followed by a fifth day without contributions. *)
Definition example_days_idle_today : list Streak.Day :=
  example_days ++ [ Streak.mkDay "2024-01-05" 0 ].

(** Two days with a contribution and a missing day between them. *)
Definition gap_days : list Streak.Day :=
  [ Streak.mkDay "2024-01-01" 1; Streak.mkDay "2024-01-03" 1 ].

(** The same date twice, with different counts. *)
Definition twice_idle_first : list Streak.Day :=
  [ Streak.mkDay "2024-01-01" 0; Streak.mkDay "2024-01-01" 1 ].
Definition twice_idle_last : list Streak.Day :=
  [ Streak.mkDay "2024-01-01" 1; Streak.mkDay "2024-01-01" 0 ].

(** Three public repositories with 10, 30 and 20 contributions, fetched
    in one year window. *)
Definition three_repos : list Contrib.YearResult :=
  [ Some [ Contrib.mkEntry "octo/ten" "https://example.org/ten" 1 false 10;
           Contrib.mkEntry "octo/thirty" "https://example.org/thirty" 2
                           false 30;
           Contrib.mkEntry "octo/twenty" "https://example.org/twenty" 3
                           false 20 ] ].

(** A failed year window and one that holds a private repository only. *)
Definition only_private : list Contrib.YearResult :=
  [ None;
    Some [ Contrib.mkEntry "octo/secret" "https://example.org/secret" 4
                           true 12 ] ].

(** The repository [repoA] with 5 contributions in 2023 and 3 in 2024;
    its url and star count differ between the two windows. *)
Definition repoA_two_years : list Contrib.YearResult :=
  [ Some [ Contrib.mkEntry "repoA" "https://example.org/2023" 5 false 5 ];
    Some [ Contrib.mkEntry "repoA" "https://example.org/2024" 9 false 3 ] ].

(** Sum of the counts of a series. *)
Definition sum_counts (l : list Streak.Day) : Z :=
  fold_right (fun d acc => Streak.count d + acc) 0 l.

(** The trailing entries with a contribution, in the order of the series. *)
Definition trailing_block (l : list Streak.Day) : list Streak.Day :=
  rev (take_while contributed (rev l)).

(** Date of the last entry of a block, if any. *)
Definition last_date (l : list Streak.Day) : option string :=
  Streak.first_date (rev l).

(** Invariant of the forward loop of [computeStreaks] on its date
    variables after the entries [l]: the running start is the date of the
    first entry of the trailing block; the longest-streak dates are unset
    while no streak was seen, and otherwise are the first and the last
    date of a run of the recorded length before whose last entry no run
    of that length ends. *)
Definition fwd_marks (l : list Streak.Day) (s : Streak.Fwd) : Prop :=
  Streak.f_runStart s = Streak.first_date (trailing_block l) /\
  ((Streak.f_longest s = 0 /\ Streak.f_longestStart s = None
    /\ Streak.f_longestEnd s = None) \/
   exists pre run suf,
     l = pre ++ run ++ suf /\
     Forall (fun d => 1 <= Streak.count d) run /\
     0 < Streak.f_longest s /\
     Z.of_nat (length run) = Streak.f_longest s /\
     Streak.f_longestStart s = Streak.first_date run /\
     Streak.f_longestEnd s = last_date run /\
     forall run', Spec.run_in (pre ++ removelast run) run' ->
                  Forall (fun d => 1 <= Streak.count d) run' ->
                  Z.of_nat (length run') < Streak.f_longest s).

(** No date of the series is the empty string. *)
Definition dated (l : list Streak.Day) : Prop :=
  Forall (fun d => Streak.date d <> "") l.

(** The part of the GraphQL answer that [fetchYear] reads: one element of
    [contributionCalendar.weeks[i].contributionDays]. *)
Module Api.
Record ContributionDay : Type := mkContributionDay {
  contributionCount : Z;
  date : string
}.
End Api.

Module StreakMain.

(** The loops of [fetchYear] over [weeks] and [week.contributionDays]:
    [days.push({ date: day.date, count: day.contributionCount })]. *)
Definition fetchYear_days (weeks : list (list Api.ContributionDay))
    : list Streak.Day :=
  flat_map
    (fun week =>
       map (fun day => Streak.mkDay (Api.date day) (Api.contributionCount day))
           week)
    weeks.

(** What one year window hands over: the weeks of its calendar, or [None]
    when [fetchYear] threw (the [catch] logs a warning). *)
Definition YearCalendar : Type := option (list (list Api.ContributionDay)).

(** Body of the year loop of [main]: [allDays.push(...days)]. *)
Definition push_year (allDays : list Streak.Day) (yr : YearCalendar)
    : list Streak.Day :=
  match yr with
  | Some weeks => allDays ++ fetchYear_days weeks
  | None => allDays
  end.

Definition allDays (years : list YearCalendar) : list Streak.Day :=
  fold_left push_year years [].

(** The statistics that [main] hands to [generateSvg]:
    [computeStreaks(uniqueDays)]. *)
Definition main_stats (today : string) (years : list YearCalendar)
    : Streak.StreakStats :=
  Streak.computeStreaks today (Streak.uniqueDays (allDays years)).

End StreakMain.

(** Two runs of the year loop of [main] that fetch the same two days: in
    the second run a window failed first, and the windows overlap. *)
Definition calendar_once : list StreakMain.YearCalendar :=
  [ Some [ [ Api.mkContributionDay 2 "2023-12-31";
             Api.mkContributionDay 1 "2024-01-01" ] ] ].
Definition calendar_overlapping : list StreakMain.YearCalendar :=
  [ None;
    Some [ [ Api.mkContributionDay 1 "2024-01-01" ] ];
    Some [ [ Api.mkContributionDay 2 "2023-12-31" ];
           [ Api.mkContributionDay 1 "2024-01-01" ] ] ].

(** Sum of the contributions of rows. *)
Definition sum_contributions (l : list Contrib.Repo) : Z :=
  fold_right (fun r acc => Contrib.contributions r + acc) 0 l.

(** The entries of public repositories. *)
Definition public (es : list Contrib.Entry) : list Contrib.Entry :=
  filter (fun e => negb (Contrib.repository_isPrivate e)) es.

(** The names of a list in the order of their first occurrence. *)
Definition first_occurrences (names : list string) : list string :=
  fold_left
    (fun acc k => if existsb (String.eqb k) acc then acc else acc ++ [k])
    names [].

(* ================================================================== *)
(** ** generate-contributor-stats.js: the card *)
(* ================================================================== *)

Module Card.

(** [{ label, color }] *)
Record Rank : Type := mkRank { label : string; color : string }.

Definition getRank (stars : Z) : Rank :=
  if 10000 <=? stars then mkRank "S+" "#e4b669"
  else if 1000 <=? stars then mkRank "S" "#e4b669"
  else if 500 <=? stars then mkRank "A+" "#69c46d"
  else if 100 <=? stars then mkRank "A" "#69c46d"
  else if 50 <=? stars then mkRank "B+" "#6cb6ff"
  else mkRank "B" "#6cb6ff".

(** The double-quote character. *)
Definition dquote : ascii := ascii_of_nat 34.

(** [str.replace(/c/g, by)] for a pattern that is the single character
    [c]: every occurrence, from left to right. *)
Fixpoint replace_char (c : ascii) (by_ : string) (str : string) : string :=
  match str with
  | EmptyString => EmptyString
  | String a rest =>
      if Ascii.eqb a c then (by_ ++ replace_char c by_ rest)%string
      else String a (replace_char c by_ rest)
  end.

Definition escapeXml (str : string) : string :=
  replace_char dquote "&quot;"
    (replace_char ">" "&gt;"
       (replace_char "<" "&lt;"
          (replace_char "&" "&amp;" str))).

(** [name.length > 38 ? name.slice(0, 35) + "..." : name], on the escaped
    name; lengths are counted in code units, which are the characters of
    an ASCII name. *)
Definition displayName (name : string) : string :=
  if (38 <? String.length name)%nat
  then (substring 0 35 name ++ "...")%string
  else name.

Definition ROW_HEIGHT : Z := 70.
Definition PADDING_TOP : Z := 35.
Definition PADDING_BOTTOM : Z := 20.
Definition WIDTH : Z := 450.

(** [PADDING_TOP + repos.length * ROW_HEIGHT + PADDING_BOTTOM] *)
Definition HEIGHT (repos : list Contrib.Repo) : Z :=
  PADDING_TOP + Z.of_nat (length repos) * ROW_HEIGHT + PADDING_BOTTOM.

(** [y] of the row of index [i]: [PADDING_TOP + i * ROW_HEIGHT]. *)
Definition row_y (i : nat) : Z := PADDING_TOP + Z.of_nat i * ROW_HEIGHT.

(** The divider line under a row is drawn when [i < repos.length - 1]. *)
Definition has_divider (repos : list Contrib.Repo) (i : nat) : bool :=
  Z.of_nat i <? Z.of_nat (length repos) - 1.

End Card.

(** The year loop of [main] in generate-contributor-stats.js: the years
    put in [from] and [to] of each query,
    [from = `${year}-01-01T00:00:00Z`] and
    [to = `${Math.min(year + 1, currentYear + 1)}-01-01T00:00:00Z`]. The
    loop [for (year = startYear; year <= currentYear; year++)] runs on
    [fuel]. *)
Fixpoint year_loop (fuel : nat) (year currentYear : Z) : list (Z * Z) :=
  match fuel with
  | O => []
  | S fuel' =>
      if year <=? currentYear then
        (year, Z.min (year + 1) (currentYear + 1))
        :: year_loop fuel' (year + 1) currentYear
      else []
  end.

(** [OUTPUT.split("/")]: the pieces between the slashes; a string without
    slash is one piece. *)
Fixpoint split_slash (s : string) : list string :=
  match s with
  | EmptyString => [EmptyString]
  | String a rest =>
      if Ascii.eqb a "/" then EmptyString :: split_slash rest
      else match split_slash rest with
           | [] => [String a EmptyString]
           | piece :: pieces => String a piece :: pieces
           end
  end.

(** [OUTPUT.split("/").slice(0, -1).join("/")], the directory that both
    scripts create before writing (when it is not the empty string). *)
Definition output_dir (OUTPUT : string) : string :=
  String.concat "/" (JsArray.slice0 (Num (-1)) (split_slash OUTPUT)).

(** One-pass reading of [escapeXml]: what each character becomes. *)
Definition entity (a : ascii) : string :=
  if Ascii.eqb a "&" then "&amp;"
  else if Ascii.eqb a "<" then "&lt;"
  else if Ascii.eqb a ">" then "&gt;"
  else if Ascii.eqb a Card.dquote then "&quot;"
  else String a EmptyString.

(** The character [c] occurs in [s]. *)
Definition occurs (c : ascii) (s : string) : Prop :=
  In c (list_ascii_of_string s).

(** Position of a rank label on the scale B, B+, A, A+, S, S+. *)
Definition rank_level (l : string) : Z :=
  if String.eqb l "S+" then 5
  else if String.eqb l "S" then 4
  else if String.eqb l "A+" then 3
  else if String.eqb l "A" then 2
  else if String.eqb l "B+" then 1
  else 0.

(* ================================================================== *)
(** ** Facts about the primitives *)
(* ================================================================== *)

Section StringOrder.

Lemma ltb_lt (a b : string) :
  String.ltb a b = true <-> String_as_OT.lt a b.
Proof.
  unfold String.ltb. rewrite <- String_as_OT.cmp_lt.
  unfold String_as_OT.cmp.
  destruct (String.compare a b); split; congruence.
Qed.

Lemma ltb_irrefl (a : string) : String.ltb a a = false.
Proof.
  unfold String.ltb.
  assert (E : String.compare a a = Eq)
    by (apply String_as_OT.cmp_eq; reflexivity).
  rewrite E. reflexivity.
Qed.

Lemma ltb_trans (a b c : string) :
  String.ltb a b = true -> String.ltb b c = true -> String.ltb a c = true.
Proof.
  rewrite !ltb_lt. apply String_as_OT.lt_trans.
Qed.

Lemma ltb_asym (a b : string) :
  String.ltb a b = true -> String.ltb b a = false.
Proof.
  intros H. destruct (String.ltb b a) eqn:E; [|reflexivity].
  pose proof (ltb_trans _ _ _ H E) as K.
  rewrite ltb_irrefl in K. discriminate.
Qed.

Lemma ltb_antisym (a b : string) :
  String.ltb a b = false -> String.ltb b a = false -> a = b.
Proof.
  unfold String.ltb. intros H1 H2.
  rewrite (String.compare_antisym b a) in H2.
  destruct (String.compare a b) eqn:E; simpl in *; try discriminate.
  apply String.compare_eq_iff. exact E.
Qed.

End StringOrder.

Section SortFacts.
Context {A : Type}.
Variable comparefn : A -> A -> Z.

#[local] Abbreviation before := (JsArray.before comparefn).
#[local] Abbreviation follows := (JsArray.follows comparefn).

Lemma insert_perm (p : A) (l : list A) :
  Permutation (JsArray.insert comparefn p l) (p :: l).
Proof.
  induction l as [|e l IH]; simpl.
  - apply Permutation_refl.
  - destruct (comparefn p e <? 0).
    + apply Permutation_refl.
    + apply Permutation_trans with (e :: p :: l).
      * apply perm_skip. exact IH.
      * apply perm_swap.
Qed.

Lemma fold_insert_perm (l acc : list A) :
  Permutation (fold_left (fun acc x => JsArray.insert comparefn x acc) l acc)
              (acc ++ l).
Proof.
  revert acc. induction l as [|x l IH]; intros acc; simpl.
  - rewrite app_nil_r. apply Permutation_refl.
  - eapply Permutation_trans; [apply IH|].
    eapply Permutation_trans.
    + apply Permutation_app_tail. apply insert_perm.
    + simpl. apply Permutation_middle.
Qed.

Lemma sort_perm (l : list A) : Permutation (JsArray.sort comparefn l) l.
Proof. unfold JsArray.sort. apply (fold_insert_perm l []). Qed.

Lemma insert_last (p : A) (l : list A) :
  Forall (fun e => before p e = false) l ->
  JsArray.insert comparefn p l = l ++ [p].
Proof.
  induction 1 as [|e l He _ IH]; simpl; [reflexivity|].
  unfold before in He. rewrite He, IH. reflexivity.
Qed.

Lemma fold_insert_sorted_id (l acc : list A) :
  StronglySorted follows (acc ++ l) ->
  fold_left (fun acc x => JsArray.insert comparefn x acc) l acc = acc ++ l.
Proof.
  revert acc. induction l as [|x l IH]; intros acc H; simpl.
  - rewrite app_nil_r. reflexivity.
  - rewrite insert_last.
    + rewrite IH; rewrite <- app_assoc; simpl; [reflexivity | exact H].
    + clear IH. induction acc as [|a acc IHa]; [constructor|].
      simpl in H. inversion H as [|? ? Hs Hf]; subst.
      constructor.
      * rewrite Forall_forall in Hf. apply (Hf x).
        apply in_or_app. right. left. reflexivity.
      * apply IHa. exact Hs.
Qed.

(** An array that the comparator finds in order is left as it is. *)
Lemma sort_sorted_id (l : list A) :
  StronglySorted follows l -> JsArray.sort comparefn l = l.
Proof. intros H. unfold JsArray.sort. apply (fold_insert_sorted_id l []). exact H. Qed.

Hypothesis before_irrefl : forall a, before a a = false.
Hypothesis before_trans :
  forall a b c, before a b = true -> before b c = true -> before a c = true.

Lemma insert_sorted (p : A) (l : list A) :
  StronglySorted follows l ->
  StronglySorted follows (JsArray.insert comparefn p l).
Proof.
  induction 1 as [|e l Hs IH Hf]; simpl.
  - repeat constructor.
  - destruct (comparefn p e <? 0) eqn:E.
    + constructor; [constructor; assumption|].
      assert (Hep : before e p = false).
      { destruct (before e p) eqn:K; [|reflexivity].
        pose proof (before_trans _ _ _ E K) as T.
        rewrite before_irrefl in T. discriminate. }
      constructor; [exact Hep|].
      rewrite Forall_forall in *. intros x Hx. unfold follows.
      destruct (before x p) eqn:K; [|reflexivity].
      pose proof (before_trans _ _ _ K E) as T.
      rewrite (Hf x Hx) in T. discriminate.
    + constructor; [exact IH|].
      rewrite Forall_forall in *. intros x Hx.
      apply (Permutation_in _ (insert_perm p l)) in Hx.
      destruct Hx as [<-|Hx]; [exact E | apply Hf; exact Hx].
Qed.

Lemma fold_insert_sorted (l acc : list A) :
  StronglySorted follows acc ->
  StronglySorted follows
    (fold_left (fun acc x => JsArray.insert comparefn x acc) l acc).
Proof.
  revert acc. induction l as [|x l IH]; intros acc H; simpl; [exact H|].
  apply IH. apply insert_sorted. exact H.
Qed.

Lemma sort_sorted (l : list A) :
  StronglySorted follows (JsArray.sort comparefn l).
Proof. apply fold_insert_sorted. constructor. Qed.

End SortFacts.

Section ListFacts.
Context {A : Type}.
Variable p : A -> bool.

Lemma take_while_all (l1 l2 : list A) :
  Forall (fun x => p x = true) l1 ->
  take_while p (l1 ++ l2) = l1 ++ take_while p l2.
Proof.
  induction 1 as [|x l Hx _ IH]; simpl; [reflexivity|].
  rewrite Hx, IH. reflexivity.
Qed.

Lemma take_while_pass (l : list A) :
  Forall (fun x => p x = true) (take_while p l).
Proof.
  induction l as [|x l IH]; simpl; [constructor|].
  destruct (p x) eqn:E; constructor; assumption.
Qed.

Lemma take_while_split (l : list A) :
  exists rest, l = take_while p l ++ rest /\
    (rest = [] \/ exists x rest', rest = x :: rest' /\ p x = false).
Proof.
  induction l as [|x l (rest & Heq & Hrest)]; simpl.
  - exists []. split; [reflexivity | left; reflexivity].
  - destruct (p x) eqn:E.
    + exists rest. split; [simpl; f_equal; exact Heq | exact Hrest].
    + exists (x :: l). split; [reflexivity|].
      right. exists x, l. split; [reflexivity | exact E].
Qed.

Lemma rev_removelast (l : list A) : rev (removelast l) = tl (rev l).
Proof.
  destruct (rev l) as [|d rest] eqn:E.
  - apply (f_equal (@rev A)) in E. rewrite rev_involutive in E.
    subst l. reflexivity.
  - apply (f_equal (@rev A)) in E. rewrite rev_involutive in E.
    subst l. simpl. rewrite removelast_last, rev_involutive. reflexivity.
Qed.

Lemma trail_snoc (l : list A) (x : A) :
  trail p (l ++ [x]) = if p x then S (trail p l) else O.
Proof.
  unfold trail. rewrite rev_app_distr. simpl.
  destruct (p x); reflexivity.
Qed.

Lemma trail_suffix (l : list A) :
  exists pre, l = pre ++ rev (take_while p (rev l)).
Proof.
  destruct (take_while_split (rev l)) as (rest & Heq & _).
  exists (rev rest).
  rewrite <- rev_app_distr, <- Heq, rev_involutive. reflexivity.
Qed.

Lemma suffix_le_trail (pre run : list A) :
  Forall (fun x => p x = true) run ->
  (length run <= trail p (pre ++ run))%nat.
Proof.
  intros H. unfold trail. rewrite rev_app_distr.
  rewrite take_while_all.
  - rewrite length_app, length_rev. lia.
  - apply Forall_rev. exact H.
Qed.

Lemma run_in_snoc (l run : list A) (x : A) :
  Spec.run_in (l ++ [x]) run ->
  Spec.run_in l run \/ exists pre, l ++ [x] = pre ++ run.
Proof.
  intros (pre & suf & H).
  destruct suf as [|y suf _] using rev_ind.
  - right. exists pre. rewrite app_nil_r in H. exact H.
  - left. rewrite !app_assoc in H.
    apply app_inj_tail in H. destruct H as [H _].
    exists pre, suf. rewrite app_assoc. exact H.
Qed.

Variable P : A -> Prop.
Hypothesis p_P : forall x, p x = true <-> P x.

Lemma Forall_p_P (l : list A) :
  Forall (fun x => p x = true) l <-> Forall P l.
Proof.
  split; intros H; eapply Forall_impl; try exact H;
    intros x Hx; apply p_P; exact Hx.
Qed.

Lemma trailing_run_trail (Q : A -> Prop) (l : list A) :
  (forall x, In x l -> (p x = true <-> Q x)) ->
  Spec.trailing_run Q l (Z.of_nat (trail p l)).
Proof.
  intros HQ. unfold Spec.trailing_run, trail.
  destruct (take_while_split (rev l)) as (rest & Heq & Hrest).
  assert (Hl : l = rev rest ++ rev (take_while p (rev l))).
  { rewrite <- rev_app_distr, <- Heq, rev_involutive. reflexivity. }
  exists (rev rest), (rev (take_while p (rev l))).
  split; [exact Hl|]. split; [|split].
  - apply Forall_forall. intros x Hx. apply HQ.
    + rewrite Hl. apply in_or_app. right. exact Hx.
    + apply in_rev in Hx.
      pose proof (take_while_pass (rev l)) as K.
      rewrite Forall_forall in K. apply K. exact Hx.
  - rewrite length_rev. reflexivity.
  - destruct Hrest as [->|(x & rest' & -> & Hx)].
    + left. reflexivity.
    + right. exists (rev rest'), x. split; [reflexivity|].
      rewrite <- HQ.
      * rewrite Hx. discriminate.
      * rewrite Hl. apply in_or_app. left. apply in_rev.
        rewrite rev_involutive. left. reflexivity.
Qed.

(** The step of the longest-run invariant: [best] is the length of a
    longest run of [l], the running count is [trail l]. *)
Lemma longest_run_snoc (l : list A) (x : A) (best : Z) :
  Spec.longest_run P l best ->
  Spec.longest_run P (l ++ [x])
    (if p x then Z.max best (Z.of_nat (trail p l) + 1) else best).
Proof.
  intros [(run & (pre & suf & Hrun) & HP & Hlen) Hmax].
  destruct (p x) eqn:E.
  - split.
    + destruct (Z.max_spec best (Z.of_nat (trail p l) + 1)) as [[Hlt ->]|[Hge ->]].
      * destruct (trail_suffix (l ++ [x])) as (pre' & Hsuf).
        exists (rev (take_while p (rev (l ++ [x])))).
        split; [exists pre', []; rewrite app_nil_r; exact Hsuf|].
        split; [apply Forall_p_P, Forall_rev, take_while_pass|].
        rewrite length_rev. fold (trail p (l ++ [x])).
        rewrite trail_snoc, E. lia.
      * exists run. split; [|split; assumption].
        exists pre, (suf ++ [x]). rewrite Hrun, <- !app_assoc. reflexivity.
    + intros run' Hin HP'.
      destruct (run_in_snoc _ _ _ Hin) as [Hl|(pre' & Heq)].
      * specialize (Hmax run' Hl HP'). lia.
      * pose proof (suffix_le_trail pre' run' (proj2 (Forall_p_P _) HP')) as K.
        rewrite <- Heq, trail_snoc, E in K. lia.
  - split.
    + exists run. split; [|split; assumption].
      exists pre, (suf ++ [x]). rewrite Hrun, <- !app_assoc. reflexivity.
    + intros run' Hin HP'.
      destruct (run_in_snoc _ _ _ Hin) as [Hl|(pre' & Heq)].
      * apply Hmax; assumption.
      * pose proof (suffix_le_trail pre' run' (proj2 (Forall_p_P _) HP')) as K.
        rewrite <- Heq, trail_snoc, E in K.
        assert (0 <= best) by (rewrite <- Hlen; lia). lia.
Qed.

Lemma filter_none (f : A -> bool) (l : list A) :
  (forall x, In x l -> f x = false) -> filter f l = [].
Proof.
  induction l as [|x l IH]; intros H; simpl; [reflexivity|].
  rewrite (H x) by (left; reflexivity).
  apply IH. intros y Hy. apply H. right. exact Hy.
Qed.

Lemma longest_run_nil : Spec.longest_run P [] 0.
Proof.
  split.
  - exists []. split; [exists [], []; reflexivity|].
    split; [constructor | reflexivity].
  - intros run (pre & suf & H) _.
    destruct pre; [|discriminate]. destruct run; [simpl; lia | discriminate].
Qed.

End ListFacts.

(* ================================================================== *)
(** ** Facts about computeStreaks *)
(* ================================================================== *)

Section StreakFacts.
Import Streak.

Lemma contributed_spec (d : Day) : contributed d = true <-> 1 <= count d.
Proof. unfold contributed. rewrite Z.ltb_lt. lia. Qed.

Lemma fwd_step_run (s : Fwd) (d : Day) :
  f_runStreak (fwd_step s d) = if contributed d then f_runStreak s + 1 else 0.
Proof.
  unfold fwd_step, contributed.
  destruct (0 <? count d); [|reflexivity].
  destruct (f_longest s <? f_runStreak s + 1); reflexivity.
Qed.

Lemma fwd_step_longest (s : Fwd) (d : Day) :
  f_longest (fwd_step s d) =
  if contributed d then Z.max (f_longest s) (f_runStreak s + 1)
  else f_longest s.
Proof.
  unfold fwd_step, contributed.
  destruct (0 <? count d); [|reflexivity].
  destruct (f_longest s <? f_runStreak s + 1) eqn:E; simpl.
  - apply Z.ltb_lt in E. lia.
  - apply Z.ltb_ge in E. lia.
Qed.

Lemma fwd_inv_step (l : list Day) (s : Fwd) (d : Day) :
  fwd_inv l s -> fwd_inv (l ++ [d]) (fwd_step s d).
Proof.
  intros [Hrun Hbest]. split.
  - rewrite fwd_step_run, trail_snoc, Hrun.
    destruct (contributed d); lia.
  - rewrite fwd_step_longest, Hrun.
    apply (longest_run_snoc contributed _ contributed_spec). exact Hbest.
Qed.

Lemma fwd_inv_fold (l done : list Day) (s : Fwd) :
  fwd_inv done s -> fwd_inv (done ++ l) (fold_left fwd_step l s).
Proof.
  revert done s. induction l as [|d l IH]; intros done s H; simpl.
  - rewrite app_nil_r. exact H.
  - replace (done ++ d :: l) with ((done ++ [d]) ++ l)
      by (rewrite <- app_assoc; reflexivity).
    apply IH. apply fwd_inv_step. exact H.
Qed.

Lemma forward_inv (l : list Day) : fwd_inv l (forward l).
Proof.
  apply (fwd_inv_fold l [] fwd_init). split; [reflexivity|].
  apply longest_run_nil.
Qed.

Lemma backward_rest (today : string) (rdays : list Day) (s : Cur) :
  c_streak (backward today false rdays s) =
  c_streak s + Z.of_nat (length (take_while contributed rdays)).
Proof.
  revert s. induction rdays as [|d rest IH]; intros s; simpl.
  - lia.
  - unfold contributed at 1. destruct (0 <? count d); simpl.
    + rewrite IH. simpl. lia.
    + lia.
Qed.

Lemma backward_first (today : string) (l : list Day) (s : Cur) :
  backward today true (rev l) s =
  backward today false (rev (Spec.scanned today l)) s.
Proof.
  unfold Spec.scanned, Spec.last_is_idle_today.
  destruct (rev l) as [|d rest] eqn:E; [rewrite E; reflexivity|].
  simpl.
  destruct (String.eqb (date d) today && (count d =? 0)) eqn:K.
  - rewrite rev_removelast, E. reflexivity.
  - rewrite E. simpl. reflexivity.
Qed.

(** The backward loop counts the trailing entries with a contribution
    among the scanned ones. *)
Lemma currentStreak_trail (today : string) (days : list Day) :
  currentStreak (computeStreaks today days) =
  Z.of_nat (trail contributed
              (Spec.scanned today (JsArray.sort compareDays days))).
Proof.
  unfold computeStreaks. simpl.
  rewrite backward_first, backward_rest. reflexivity.
Qed.

Lemma longestStreak_run (today : string) (days : list Day) :
  Spec.longest_run (fun d => 1 <= count d)
    (JsArray.sort compareDays days)
    (longestStreak (computeStreaks today days)).
Proof.
  unfold computeStreaks. simpl. apply forward_inv.
Qed.

Lemma scanned_prefix (today : string) (l : list Day) :
  exists suf, l = Spec.scanned today l ++ suf.
Proof.
  unfold Spec.scanned. destruct (Spec.last_is_idle_today today l).
  - destruct l as [|d l] using rev_ind.
    + exists []. reflexivity.
    + exists [d]. rewrite removelast_last. reflexivity.
  - exists []. rewrite app_nil_r. reflexivity.
Qed.

End StreakFacts.

Section StreakOrder.
Import Streak.

Lemma compareDays_before (a b : Day) :
  JsArray.before compareDays a b = String.ltb (date a) (date b).
Proof.
  unfold JsArray.before, compareDays. destruct (String.ltb (date a) (date b)); reflexivity.
Qed.

Lemma ascending_follows (l : list Day) :
  Spec.ascending l <->
  StronglySorted (JsArray.follows compareDays) l.
Proof.
  unfold Spec.ascending, JsArray.follows.
  split; induction 1 as [|a l Hs IH Hf]; constructor; try assumption;
    (eapply Forall_impl; [|exact Hf]); intros b Hb; simpl in *;
    [rewrite compareDays_before | rewrite <- compareDays_before]; exact Hb.
Qed.

Lemma sort_ascending (l : list Day) :
  Spec.ascending (JsArray.sort compareDays l).
Proof.
  apply ascending_follows. apply sort_sorted.
  - intros a. rewrite compareDays_before. apply ltb_irrefl.
  - intros a b c. rewrite !compareDays_before. apply ltb_trans.
Qed.

Lemma sort_ascending_id (l : list Day) :
  Spec.ascending l -> JsArray.sort compareDays l = l.
Proof.
  intros H. apply sort_sorted_id. apply ascending_follows. exact H.
Qed.

Lemma unique_dates_perm (l1 l2 : list Day) :
  Permutation l1 l2 -> Spec.unique_dates l1 -> Spec.unique_dates l2.
Proof.
  unfold Spec.unique_dates. intros HP H.
  eapply Permutation_NoDup; [|exact H].
  apply Permutation_map. exact HP.
Qed.

(** A series with one entry per date has a single arrangement in date
    order. *)
Lemma ascending_perm_eq (l1 l2 : list Day) :
  Spec.ascending l1 -> Spec.ascending l2 -> Spec.unique_dates l1 ->
  Permutation l1 l2 -> l1 = l2.
Proof.
  revert l2. induction l1 as [|a l1 IH]; intros l2 H1 H2 Hu HP.
  - apply Permutation_nil in HP. subst. reflexivity.
  - destruct l2 as [|b l2].
    + apply Permutation_sym, Permutation_nil in HP. discriminate.
    + inversion H1 as [|? ? Hs1 Hf1]; subst.
      inversion H2 as [|? ? Hs2 Hf2]; subst.
      inversion Hu as [|? ? Hna Hu']; subst.
      assert (Hab : a = b).
      { assert (Ha : In a (b :: l2))
          by (eapply Permutation_in; [exact HP | left; reflexivity]).
        assert (Hb : In b (a :: l1))
          by (eapply Permutation_in;
              [apply Permutation_sym; exact HP | left; reflexivity]).
        destruct Ha as [Ha|Ha]; [symmetry; exact Ha|].
        destruct Hb as [Hb|Hb]; [exact Hb|].
        rewrite Forall_forall in Hf1, Hf2.
        pose proof (Hf1 b Hb) as K1. pose proof (Hf2 a Ha) as K2.
        simpl in K1, K2.
        pose proof (ltb_antisym _ _ K2 K1) as Hd.
        exfalso. apply Hna. rewrite Hd. apply in_map. exact Hb. }
      subst b. f_equal.
      apply IH; try assumption.
      eapply Permutation_cons_inv. exact HP.
Qed.

End StreakOrder.

(* ================================================================== *)
(** ** The streak analyzer *)
(* ================================================================== *)

Section StreakProperties.
Import Streak.

(** C1, as stated, fails: with the worked example and today's date
    2024-01-05, which is later than 2024-01-04, the current streak is
    not 0. *)
Lemma C1_later_today_not_zero :
  String.ltb "2024-01-04" "2024-01-05" = true /\
  currentStreak (computeStreaks "2024-01-05" example_days) <> 0.
Proof. split; [reflexivity | vm_compute; discriminate]. Qed.

(** C1, amended: on the worked example [computeStreaks] returns
    longestStreak = 2 with start 2024-01-01 and end 2024-01-02, whatever
    today's date is, and currentStreak = 1 both when today's date is
    2024-01-04 and when it is the day after, 2024-01-05. *)
Theorem C1_example_streaks :
  (forall today,
      longestStreak (computeStreaks today example_days) = 2 /\
      longestStreakStart (computeStreaks today example_days)
        = Some "2024-01-01" /\
      longestStreakEnd (computeStreaks today example_days)
        = Some "2024-01-02") /\
  currentStreak (computeStreaks "2024-01-04" example_days) = 1 /\
  currentStreak (computeStreaks "2024-01-05" example_days) = 1.
Proof.
  split; [|split; reflexivity].
  intros today. repeat split; reflexivity.
Qed.

Lemma gap_days_not_adjacent (a b : Day) :
  In a gap_days -> In b gap_days ->
  ~ Calendar.next_day (date a) (date b).
Proof.
  intros Ha Hb (n & Hn1 & Hn2). simpl in Ha, Hb.
  destruct Ha as [<-|[<-|[]]]; destruct Hb as [<-|[<-|[]]];
    vm_compute in Hn1, Hn2; inversion Hn1; subst n; inversion Hn2.
Qed.

(** C2, as stated, fails: for two days with a contribution and a
    missing calendar day between them, a longest run of consecutive
    calendar days with at least one contribution each has length 1, and
    the longest streak that [computeStreaks] returns is 2. *)
Lemma C2_gap_does_not_end_streak :
  Spec.longest_calendar_streak gap_days 1 /\
  longestStreak (computeStreaks "2024-01-03" gap_days) = 2 /\
  ~ Spec.longest_calendar_streak gap_days
      (longestStreak (computeStreaks "2024-01-03" gap_days)).
Proof.
  assert (Hmax : forall m, Spec.calendar_streak gap_days m -> m <= 1).
  { intros m (run & Hrun & Hcons & Hlen).
    destruct run as [|a [|b run]]; simpl in Hlen; try lia.
    exfalso.
    inversion Hrun as [|? ? [Ha _] Hrun']; subst.
    inversion Hrun' as [|? ? [Hb _] _]; subst.
    destruct Hcons as [Hnext _].
    exact (gap_days_not_adjacent a b Ha Hb Hnext). }
  split; [|split].
  - split; [|exact Hmax].
    exists [mkDay "2024-01-01" 1]. split; [|split].
    + constructor; [|constructor].
      split; [left; reflexivity | simpl; lia].
    + exact I.
    + reflexivity.
  - reflexivity.
  - intros [H _]. apply Hmax in H.
    change (longestStreak (computeStreaks "2024-01-03" gap_days))
      with 2 in H. lia.
Qed.

(** C2, amended: for every day series, the longestStreak returned by
    [computeStreaks] is the length of a longest run of adjacent entries
    of the series arranged in date order in which every entry has count
    at least one. The dates of adjacent entries are not compared, so a
    gap in dates between two such entries does not end a streak. *)
Theorem C2_longest_run_of_adjacent_entries (today : string)
    (days : list Day) :
  exists sorted,
    Permutation sorted days /\ Spec.ascending sorted /\
    Spec.longest_run (fun d => 1 <= count d) sorted
      (longestStreak (computeStreaks today days)).
Proof.
  exists (JsArray.sort compareDays days). split; [|split].
  - apply sort_perm.
  - apply sort_ascending.
  - apply longestStreak_run.
Qed.

(** C3, as stated, fails: two arrangements of the same two entries, which
    have the same date and different counts, give different results. *)
Lemma C3_same_date_order_matters :
  Permutation twice_idle_first twice_idle_last /\
  computeStreaks "2024-01-02" twice_idle_first
    <> computeStreaks "2024-01-02" twice_idle_last.
Proof.
  split; [apply perm_swap|].
  intros H. apply (f_equal currentStreak) in H.
  vm_compute in H. discriminate.
Qed.

(** C3, amended: [computeStreaks] is permutation-invariant on series
    with at most one entry per date: two input lists that are
    permutations of each other and hold no date twice give the same
    StreakStats. *)
Theorem C3_permutation_invariant (today : string) (l1 l2 : list Day)
    (Hperm : Permutation l1 l2) (Huniq : Spec.unique_dates l1) :
  computeStreaks today l1 = computeStreaks today l2.
Proof.
  assert (Hsort : JsArray.sort compareDays l1 = JsArray.sort compareDays l2).
  { apply ascending_perm_eq; try apply sort_ascending.
    - eapply unique_dates_perm; [|exact Huniq].
      apply Permutation_sym, sort_perm.
    - eapply Permutation_trans; [apply sort_perm|].
      eapply Permutation_trans; [exact Hperm|].
      apply Permutation_sym, sort_perm. }
  unfold computeStreaks. rewrite Hsort. reflexivity.
Qed.

Lemma C3_permutation_invariant_witness :
  Permutation example_days (rev example_days) /\
  Spec.unique_dates example_days /\
  computeStreaks "2024-01-04" example_days
    = computeStreaks "2024-01-04" (rev example_days).
Proof.
  assert (Hp : Permutation example_days (rev example_days))
    by apply Permutation_rev.
  assert (Hu : Spec.unique_dates example_days).
  { unfold Spec.unique_dates. simpl.
    repeat constructor; simpl; intuition discriminate. }
  split; [exact Hp|]. split; [exact Hu|].
  apply (C3_permutation_invariant "2024-01-04" _ _ Hp Hu).
Defined.

(** C4: for every day series in date order with at most one entry per
    date (counts being non-negative integers), currentStreak is the
    number of trailing entries with nonzero count of the scanned
    entries, which are all entries without the last one exactly when
    its date is today's and its count is zero: these trailing entries
    are all nonzero and the entry before them, if any, has count zero. *)
Theorem C4_current_streak_trailing_run (today : string) (days : list Day)
    (Hsorted : Spec.ascending days)
    (Huniq : Spec.unique_dates days)
    (Hcount : Forall (fun d => 0 <= count d) days) :
  Spec.trailing_run (fun d => count d <> 0)
    (Spec.scanned today days)
    (currentStreak (computeStreaks today days)).
Proof.
  rewrite currentStreak_trail, (sort_ascending_id _ Hsorted).
  apply trailing_run_trail.
  intros d Hd.
  destruct (scanned_prefix today days) as (suf & Hsuf).
  rewrite Forall_forall in Hcount.
  assert (0 <= count d).
  { apply Hcount. rewrite Hsuf. apply in_or_app. left. exact Hd. }
  unfold contributed. rewrite Z.ltb_lt. lia.
Qed.

Lemma C4_current_streak_trailing_run_witness :
  Spec.ascending example_days_idle_today /\
  Spec.unique_dates example_days_idle_today /\
  Forall (fun d => 0 <= count d) example_days_idle_today /\
  Spec.trailing_run (fun d => count d <> 0)
    (Spec.scanned "2024-01-05" example_days_idle_today)
    (currentStreak (computeStreaks "2024-01-05" example_days_idle_today)).
Proof.
  assert (Hs : Spec.ascending example_days_idle_today)
    by (unfold Spec.ascending; simpl; repeat constructor).
  assert (Hu : Spec.unique_dates example_days_idle_today)
    by (unfold Spec.unique_dates; simpl;
        repeat constructor; simpl; intuition discriminate).
  assert (Hc : Forall (fun d => 0 <= count d) example_days_idle_today)
    by (simpl; repeat constructor; simpl; lia).
  split; [exact Hs|]. split; [exact Hu|]. split; [exact Hc|].
  exact (C4_current_streak_trailing_run "2024-01-05"
           example_days_idle_today Hs Hu Hc).
Defined.

(** C8: for every input day series, the StreakStats returned by
    [computeStreaks] has currentStreak <= longestStreak. *)
Theorem C8_current_le_longest (today : string) (days : list Day) :
  currentStreak (computeStreaks today days)
    <= longestStreak (computeStreaks today days).
Proof.
  rewrite currentStreak_trail.
  destruct (longestStreak_run today days) as [_ Hmax].
  set (sorted := JsArray.sort compareDays days) in *.
  destruct (scanned_prefix today sorted) as (suf & Hsuf).
  destruct (trail_suffix contributed (Spec.scanned today sorted))
    as (pre & Hpre).
  unfold trail. rewrite <- length_rev.
  apply Hmax.
  - exists pre, suf. rewrite app_assoc, <- Hpre. exact Hsuf.
  - apply (Forall_p_P contributed _ contributed_spec).
    apply Forall_rev, take_while_pass.
Qed.

End StreakProperties.

(* ================================================================== *)
(** ** Facts about Map *)
(* ================================================================== *)

Section MapFacts.
Context {V : Type}.
Implicit Types (m : JsMap.t V) (k : string) (v : V).

Lemma get_set_same k v m : JsMap.get k (JsMap.set k v m) = Some v.
Proof.
  induction m as [|[k' v'] m IH]; simpl.
  - rewrite String.eqb_refl. reflexivity.
  - destruct (String.eqb k k') eqn:E; simpl.
    + rewrite String.eqb_refl. reflexivity.
    + rewrite E. exact IH.
Qed.

Lemma get_set_other k k' v m :
  k' <> k -> JsMap.get k' (JsMap.set k v m) = JsMap.get k' m.
Proof.
  intros Hne. induction m as [|[k0 v0] m IH]; simpl.
  - apply String.eqb_neq in Hne. rewrite Hne. reflexivity.
  - destruct (String.eqb k k0) eqn:E; simpl.
    + apply String.eqb_eq in E. subst k0.
      apply String.eqb_neq in Hne. rewrite Hne. reflexivity.
    + rewrite IH. reflexivity.
Qed.

Lemma get_none_keys k m : JsMap.get k m = None <-> ~ In k (JsMap.keys m).
Proof.
  induction m as [|[k' v'] m IH]; simpl.
  - split; [intros _ [] | reflexivity].
  - destruct (String.eqb k k') eqn:E.
    + apply String.eqb_eq in E. subst. split; [discriminate|].
      intros H. exfalso. apply H. left. reflexivity.
    + apply String.eqb_neq in E. rewrite IH. split.
      * intros H [Hk|Hk]; [apply E; symmetry; exact Hk | apply H; exact Hk].
      * intros H Hk. apply H. right. exact Hk.
Qed.

Lemma keys_set k v m :
  JsMap.keys (JsMap.set k v m) =
  match JsMap.get k m with
  | Some _ => JsMap.keys m
  | None => JsMap.keys m ++ [k]
  end.
Proof.
  induction m as [|[k' v'] m IH]; simpl; [reflexivity|].
  destruct (String.eqb k k') eqn:E; simpl.
  - apply String.eqb_eq in E. subst. reflexivity.
  - rewrite IH. destruct (JsMap.get k m); reflexivity.
Qed.

Lemma keys_set_nodup k v m :
  NoDup (JsMap.keys m) -> NoDup (JsMap.keys (JsMap.set k v m)).
Proof.
  intros H. rewrite keys_set.
  destruct (JsMap.get k m) eqn:E; [exact H|].
  apply get_none_keys in E.
  apply (Permutation_NoDup (l := k :: JsMap.keys m)).
  - apply Permutation_cons_append.
  - constructor; assumption.
Qed.

Lemma in_get k v m :
  NoDup (JsMap.keys m) -> (In (k, v) m <-> JsMap.get k m = Some v).
Proof.
  induction m as [|[k' v'] m IH]; simpl; intros Hnd.
  - split; [intros [] | discriminate].
  - inversion Hnd as [|? ? Hk Hnd']; subst.
    destruct (String.eqb k k') eqn:E.
    + apply String.eqb_eq in E. subst k'. split.
      * intros [H|H]; [congruence|].
        exfalso. apply Hk. apply (in_map fst) in H. exact H.
      * intros H. left. congruence.
    + apply String.eqb_neq in E. rewrite <- (IH Hnd'). split.
      * intros [H|H]; [congruence | exact H].
      * intros H. right. exact H.
Qed.

Lemma in_values v m :
  NoDup (JsMap.keys m) ->
  (In v (JsMap.values m) <-> exists k, JsMap.get k m = Some v).
Proof.
  intros Hnd. unfold JsMap.values. rewrite in_map_iff. split.
  - intros ([k v'] & Hv & Hin). simpl in Hv. subst v'.
    exists k. apply in_get; assumption.
  - intros (k & Hk). exists (k, v). split; [reflexivity|].
    apply in_get; assumption.
Qed.

End MapFacts.

(* ================================================================== *)
(** ** De-duplication of the fetched days *)
(* ================================================================== *)

Section Dedup.
Import Streak.

Lemma dedup_inv_fold (l seen : list Day) (m : JsMap.t Day) :
  dedup_inv seen m -> dedup_inv (seen ++ l) (fold_left dedup_step l m).
Proof.
  revert seen m. induction l as [|x l IH]; intros seen m H; simpl.
  - rewrite app_nil_r. exact H.
  - replace (seen ++ x :: l) with ((seen ++ [x]) ++ l)
      by (rewrite <- app_assoc; reflexivity).
    apply IH. clear IH.
    destruct H as (Hnd & Hmax & Hall).
    unfold dedup_step.
    destruct (JsMap.get (date x) m) as [existing|] eqn:E.
    + destruct (Hmax _ _ E) as (Hdate & Hin & Hle).
      destruct (count existing <? count x) eqn:C.
      * apply Z.ltb_lt in C. split; [apply keys_set_nodup; exact Hnd|]. split.
        -- intros k d Hk.
           destruct (String.eqb_spec k (date x)) as [->|Hne].
           ++ rewrite get_set_same in Hk. inversion Hk; subst d.
              split; [reflexivity|]. split.
              ** apply in_or_app. right. left. reflexivity.
              ** intros e He Hde. apply in_app_or in He.
                 destruct He as [He|[<-|[]]]; [|lia].
                 specialize (Hle e He Hde). lia.
           ++ rewrite get_set_other in Hk by exact Hne.
              destruct (Hmax _ _ Hk) as (Hd1 & Hd2 & Hd3).
              split; [exact Hd1|]. split.
              ** apply in_or_app. left. exact Hd2.
              ** intros e He Hde. apply in_app_or in He.
                 destruct He as [He|[<-|[]]]; [apply Hd3; assumption|].
                 congruence.
        -- intros e He. apply in_app_or in He.
           destruct (String.eqb_spec (date e) (date x)) as [->|Hne].
           ++ rewrite get_set_same. discriminate.
           ++ rewrite get_set_other by exact Hne.
              destruct He as [He|[<-|[]]]; [apply Hall; exact He|].
              congruence.
      * apply Z.ltb_ge in C. split; [exact Hnd|]. split.
        -- intros k d Hk.
           destruct (Hmax _ _ Hk) as (Hd1 & Hd2 & Hd3).
           split; [exact Hd1|]. split.
           ++ apply in_or_app. left. exact Hd2.
           ++ intros e He Hde. apply in_app_or in He.
              destruct He as [He|[<-|[]]]; [apply Hd3; assumption|].
              assert (d = existing) by congruence. subst d. exact C.
        -- intros e He. apply in_app_or in He.
           destruct He as [He|[<-|[]]]; [apply Hall; exact He|].
           rewrite E. discriminate.
    + split; [apply keys_set_nodup; exact Hnd|]. split.
      * intros k d Hk.
        destruct (String.eqb_spec k (date x)) as [->|Hne].
        -- rewrite get_set_same in Hk. inversion Hk; subst d.
           split; [reflexivity|]. split.
           ++ apply in_or_app. right. left. reflexivity.
           ++ intros e He Hde. apply in_app_or in He.
              destruct He as [He|[<-|[]]]; [|lia].
              exfalso. apply (Hall e He). rewrite Hde. exact E.
        -- rewrite get_set_other in Hk by exact Hne.
           destruct (Hmax _ _ Hk) as (Hd1 & Hd2 & Hd3).
           split; [exact Hd1|]. split.
           ++ apply in_or_app. left. exact Hd2.
           ++ intros e He Hde. apply in_app_or in He.
              destruct He as [He|[<-|[]]]; [apply Hd3; assumption|].
              congruence.
      * intros e He. apply in_app_or in He.
        destruct (String.eqb_spec (date e) (date x)) as [->|Hne].
        -- rewrite get_set_same. discriminate.
        -- rewrite get_set_other by exact Hne.
           destruct He as [He|[<-|[]]]; [apply Hall; exact He|].
           congruence.
Qed.

End Dedup.

Section DedupProperties.
Import Streak.

(** C5: for every list of fetched days, the de-duplicated day series
    holds at most one entry per date; each entry kept is one of the
    fetched entries and carries the maximum count fetched for its date;
    and every fetched date is kept. *)
Theorem C5_dedup_unique_max (allDays : list Day) :
  NoDup (map date (uniqueDays allDays)) /\
  (forall d, In d (uniqueDays allDays) ->
     In d allDays /\
     forall e, In e allDays -> date e = date d -> count e <= count d) /\
  (forall e, In e allDays ->
     exists d, In d (uniqueDays allDays) /\ date d = date e).
Proof.
  assert (Hinv : dedup_inv allDays (dedupMap allDays)).
  { apply (dedup_inv_fold allDays [] JsMap.empty).
    split; [constructor|]. split.
    - intros k d H. discriminate.
    - intros e []. }
  destruct Hinv as (Hnd & Hmax & Hall).
  unfold uniqueDays. split; [|split].
  - replace (map date (JsMap.values (dedupMap allDays)))
      with (JsMap.keys (dedupMap allDays)); [exact Hnd|].
    unfold JsMap.values, JsMap.keys. rewrite map_map.
    apply map_ext_in. intros [k d] Hin. simpl.
    apply (in_get _ _ _ Hnd) in Hin.
    destruct (Hmax _ _ Hin) as (Hd & _). symmetry. exact Hd.
  - intros d Hd. apply (in_values _ _ Hnd) in Hd.
    destruct Hd as (k & Hk).
    destruct (Hmax _ _ Hk) as (Hdate & Hin & Hle).
    split; [exact Hin|]. intros e He Hde. apply Hle; congruence.
  - intros e He.
    destruct (JsMap.get (date e) (dedupMap allDays)) as [d|] eqn:E.
    + exists d. split.
      * apply (in_values _ _ Hnd). exists (date e). exact E.
      * destruct (Hmax _ _ E) as (Hd & _). exact Hd.
    + exfalso. apply (Hall e He). exact E.
Qed.

End DedupProperties.

(* ================================================================== *)
(** ** Repository merge, ranking and placeholder *)
(* ================================================================== *)

Section ContribFacts.
Import Contrib.

Lemma mergeYears_entries (years : list YearResult) (m : JsMap.t Repo) :
  fold_left merge_year years m = fold_left merge_step (entries_of years) m.
Proof.
  revert m. induction years as [|yr years IH]; intros m; simpl.
  - reflexivity.
  - unfold entries_of. simpl. fold (entries_of years).
    rewrite fold_left_app, IH. destruct yr; reflexivity.
Qed.

Lemma total_snoc (es : list Entry) (e : Entry) :
  total (es ++ [e]) = total es + contributions_totalCount e.
Proof.
  unfold total. induction es as [|x es IH]; simpl; [lia|].
  rewrite IH. lia.
Qed.

Lemma seen_snoc (key : string) (es : list Entry) (e : Entry) :
  seen key (es ++ [e]) =
  if negb (repository_isPrivate e)
     && String.eqb (repository_nameWithOwner e) key
  then seen key es ++ [e] else seen key es.
Proof.
  unfold seen. rewrite filter_app. simpl.
  destruct (negb (repository_isPrivate e)
            && String.eqb (repository_nameWithOwner e) key).
  - reflexivity.
  - rewrite app_nil_r. reflexivity.
Qed.

Lemma merged_inv_step (es : list Entry) (m : JsMap.t Repo) (e : Entry) :
  merged_inv es m -> merged_inv (es ++ [e]) (merge_step m e).
Proof.
  intros H key. rewrite seen_snoc. unfold merge_step.
  destruct (repository_isPrivate e); simpl; [apply H|].
  destruct (String.eqb_spec (repository_nameWithOwner e) key) as [Hk|Hk].
  - subst key. specialize (H (repository_nameWithOwner e)).
    destruct (JsMap.get (repository_nameWithOwner e) m) as [existing|].
    + rewrite get_set_same.
      destruct (seen (repository_nameWithOwner e) es) as [|e0 rest];
        [discriminate|].
      injection H as H; subst existing.
      cbv [nameWithOwner url stars contributions].
      cbn [app]. do 2 f_equal.
      change (total (e0 :: rest))
        with (contributions_totalCount e0 + total rest).
      rewrite total_snoc. lia.
    + rewrite get_set_same.
      destruct (seen (repository_nameWithOwner e) es) as [|e0 rest];
        [|discriminate].
      simpl. unfold total. simpl. rewrite Z.add_0_r. reflexivity.
  - assert (Hget : forall r,
              JsMap.get key (JsMap.set (repository_nameWithOwner e) r m)
              = JsMap.get key m).
    { intros r. apply get_set_other. congruence. }
    destruct (JsMap.get (repository_nameWithOwner e) m);
      rewrite Hget; apply H.
Qed.

Lemma merged_inv_fold (l es : list Entry) (m : JsMap.t Repo) :
  merged_inv es m -> merged_inv (es ++ l) (fold_left merge_step l m).
Proof.
  revert es m. induction l as [|e l IH]; intros es m H; simpl.
  - rewrite app_nil_r. exact H.
  - replace (es ++ e :: l) with ((es ++ [e]) ++ l)
      by (rewrite <- app_assoc; reflexivity).
    apply IH, merged_inv_step, H.
Qed.

Lemma mergeYears_inv (years : list YearResult) :
  merged_inv (entries_of years) (mergeYears years).
Proof.
  unfold mergeYears. rewrite mergeYears_entries.
  apply (merged_inv_fold (entries_of years) [] JsMap.empty).
  intros key. reflexivity.
Qed.

(** The comparator of the ranking puts [a] before [b] when [a] has more
    contributions. *)
Lemma compareRepos_before (a b : Repo) :
  JsArray.before compareRepos a b = (contributions b <? contributions a).
Proof.
  unfold JsArray.before, compareRepos.
  destruct (contributions b <? contributions a) eqn:E.
  - apply Z.ltb_lt in E. apply Z.ltb_lt. lia.
  - apply Z.ltb_ge in E. apply Z.ltb_ge. lia.
Qed.

Lemma descending_follows (l : list Repo) :
  descending l <->
  StronglySorted (JsArray.follows compareRepos) l.
Proof.
  unfold descending, JsArray.follows.
  split; induction 1 as [|a l Hs IH Hf]; constructor; try assumption;
    (eapply Forall_impl; [|exact Hf]); intros b Hb; simpl in *.
  - rewrite compareRepos_before. apply Z.ltb_ge. exact Hb.
  - rewrite compareRepos_before in Hb. apply Z.ltb_ge in Hb. exact Hb.
Qed.

Lemma insert_descending (p : Repo) (l : list Repo) :
  descending l -> descending (JsArray.insert compareRepos p l).
Proof.
  rewrite !descending_follows. apply insert_sorted.
  - intros a. rewrite compareRepos_before. apply Z.ltb_irrefl.
  - intros a b c. rewrite !compareRepos_before, !Z.ltb_lt. lia.
Qed.

Lemma sort_descending (l : list Repo) :
  descending (JsArray.sort compareRepos l).
Proof.
  apply descending_follows. apply sort_sorted.
  - intros a. rewrite compareRepos_before. apply Z.ltb_irrefl.
  - intros a b c. rewrite !compareRepos_before, !Z.ltb_lt. lia.
Qed.

(** Inserting a repository puts it behind the ones with the same
    number of contributions. *)
Lemma insert_with_count (c : Z) (p : Repo) (l : list Repo) :
  descending l ->
  with_count c (JsArray.insert compareRepos p l)
  = with_count c l ++ with_count c [p].
Proof.
  unfold with_count.
  induction 1 as [|e l Hs IH Hf]; [reflexivity|].
  cbn [JsArray.insert].
  change (compareRepos p e <? 0) with (JsArray.before compareRepos p e).
  rewrite compareRepos_before.
  destruct (contributions e <? contributions p) eqn:E.
  - apply Z.ltb_lt in E.
    change (p :: e :: l) with ([p] ++ (e :: l)). rewrite filter_app.
    destruct (contributions p =? c) eqn:Hp.
    + apply Z.eqb_eq in Hp.
      assert (Hnone : filter (fun r => contributions r =? c) (e :: l) = []).
      { apply filter_none. intros x Hx. apply Z.eqb_neq.
        destruct Hx as [<-|Hx]; [lia|].
        rewrite Forall_forall in Hf. specialize (Hf x Hx). simpl in Hf. lia. }
      rewrite Hnone, app_nil_r. reflexivity.
    + cbn [filter]. rewrite Hp, app_nil_r. reflexivity.
  - change (e :: JsArray.insert compareRepos p l)
      with ([e] ++ JsArray.insert compareRepos p l).
    rewrite filter_app, IH.
    change (e :: l) with ([e] ++ l).
    rewrite filter_app, app_assoc. reflexivity.
Qed.

End ContribFacts.

Section RankingFacts.
Import Contrib.

Lemma fold_insert_with_count (c : Z) (l acc : list Repo) :
  descending acc ->
  with_count c
    (fold_left (fun acc x => JsArray.insert compareRepos x acc) l acc)
  = with_count c acc ++ with_count c l.
Proof.
  revert acc. induction l as [|x l IH]; intros acc H; cbn [fold_left].
  - unfold with_count. simpl. rewrite app_nil_r. reflexivity.
  - rewrite IH by (apply insert_descending; exact H).
    rewrite insert_with_count by exact H.
    rewrite <- app_assoc. f_equal.
    unfold with_count. change (x :: l) with ([x] ++ l).
    rewrite filter_app. reflexivity.
Qed.

(** The sort of the ranking is stable. *)
Lemma sort_with_count (c : Z) (l : list Repo) :
  with_count c (JsArray.sort compareRepos l) = with_count c l.
Proof.
  unfold JsArray.sort. rewrite fold_insert_with_count by constructor.
  reflexivity.
Qed.

Lemma slice0_nonneg {A : Type} (N : Z) (l : list A) :
  0 <= N -> JsArray.slice0 (Num N) l = firstn (Z.to_nat N) l.
Proof.
  intros H. unfold JsArray.slice0.
  destruct (N <? 0) eqn:E; [apply Z.ltb_lt in E; lia|].
  destruct (Z.min_spec N (Z.of_nat (length l))) as [[Hlt ->]|[Hge ->]].
  - reflexivity.
  - rewrite Nat2Z.id, firstn_all. symmetry. apply firstn_all2. lia.
Qed.

Lemma slice0_negative {A : Type} (k : positive) (l : list A) :
  JsArray.slice0 (Num (Z.neg k)) l = firstn (length l - Pos.to_nat k) l.
Proof.
  unfold JsArray.slice0.
  replace (Z.neg k <? 0) with true by (symmetry; apply Z.ltb_lt; lia).
  f_equal. lia.
Qed.

Lemma with_placeholder_nonempty (sorted : list Repo) :
  with_placeholder sorted <> [].
Proof.
  unfold with_placeholder. destruct sorted; simpl; discriminate.
Qed.

End RankingFacts.

Section ContribProperties.
Import Contrib.

(** C6, as stated, fails: with limit -1 and three public repositories
    the ranking holds two entries, which is more than the limit, and it
    is not the first N entries of the sorted collection (there are none
    for a negative N). *)
Lemma C6_negative_limit_exceeds_limit :
  map contributions (ranking (Num (-1)) (mergeYears three_repos))
    = [30; 20] /\
  ~ (Z.of_nat (length (ranking (Num (-1)) (mergeYears three_repos)))
     <= -1) /\
  ranking (Num (-1)) (mergeYears three_repos)
    <> firstn (Z.to_nat (-1))
         (JsArray.sort compareRepos
            (JsMap.values (mergeYears three_repos))).
Proof.
  split; [reflexivity|]. split.
  - vm_compute. intros H. apply H. reflexivity.
  - vm_compute. discriminate.
Qed.

(** C6, amended: for every merged repository collection and every limit
    N that is not negative, the top-N ranking is the first N entries
    (all of them when there are fewer) of the repositories arranged by
    contribution count in descending order, where repositories with the
    same contribution count keep their insertion order; it has at most N
    entries. In particular, ranking repositories with contribution
    counts 10, 30, 20 with limit 2 returns the one with 30 followed by
    the one with 20. *)
Theorem C6_top_n_ranking (repoMap : JsMap.t Repo) (N : Z)
    (HN : 0 <= N) :
  ranking (Num N) repoMap
    = firstn (Z.to_nat N)
        (JsArray.sort compareRepos (JsMap.values repoMap)) /\
  Z.of_nat (length (ranking (Num N) repoMap)) <= N /\
  Permutation (JsArray.sort compareRepos (JsMap.values repoMap))
              (JsMap.values repoMap) /\
  descending (JsArray.sort compareRepos (JsMap.values repoMap)) /\
  (forall c,
      with_count c (JsArray.sort compareRepos (JsMap.values repoMap))
      = with_count c (JsMap.values repoMap)) /\
  map contributions (ranking (Num 2) (mergeYears three_repos))
    = [30; 20].
Proof.
  assert (Hr : ranking (Num N) repoMap
               = firstn (Z.to_nat N)
                   (JsArray.sort compareRepos (JsMap.values repoMap))).
  { unfold ranking. apply slice0_nonneg. exact HN. }
  split; [exact Hr|]. split; [|split; [|split; [|split]]].
  - rewrite Hr.
    pose proof (firstn_le_length (Z.to_nat N)
                  (JsArray.sort compareRepos (JsMap.values repoMap))).
    lia.
  - apply sort_perm.
  - apply sort_descending.
  - intros c. apply sort_with_count.
  - reflexivity.
Qed.

Lemma C6_top_n_ranking_witness :
  0 <= 2 /\
  ranking (Num 2) (mergeYears three_repos)
    = firstn (Z.to_nat 2)
        (JsArray.sort compareRepos
           (JsMap.values (mergeYears three_repos))).
Proof.
  assert (H : 0 <= 2) by lia.
  split; [exact H|].
  exact (proj1 (C6_top_n_ranking (mergeYears three_repos) 2 H)).
Defined.

(** C7: if the merged repository collection is empty (private
    repositories are left out while merging), the rows passed to the
    renderer are exactly one placeholder entry, whose contribution count
    is 0; and the renderer receives at least one row whatever was
    fetched and whatever the limit is. *)
Theorem C7_placeholder_when_empty (LIMIT : jsnum)
    (years : list YearResult)
    (Hempty : JsMap.values (mergeYears years) = []) :
  main_rows LIMIT years = [placeholder] /\
  contributions placeholder = 0 /\
  (forall LIMIT' years', main_rows LIMIT' years' <> []).
Proof.
  split; [|split].
  - unfold main_rows, ranking. rewrite Hempty.
    unfold JsArray.slice0. simpl. rewrite firstn_nil. reflexivity.
  - reflexivity.
  - intros LIMIT' years'. apply with_placeholder_nonempty.
Qed.

Lemma C7_placeholder_when_empty_witness :
  JsMap.values (mergeYears only_private) = [] /\
  main_rows (Num 5) only_private = [placeholder].
Proof.
  assert (H : JsMap.values (mergeYears only_private) = [])
    by reflexivity.
  split; [exact H|].
  exact (proj1 (C7_placeholder_when_empty (Num 5) only_private H)).
Defined.

(** C9: a repository of the merged collection has the url and the star
    count of the first public entry fetched for it, in the order of the
    year windows, and as contributions the sum of the counts of all
    public entries fetched for it: later entries change only the
    contributions. *)
Theorem C9_merge_keeps_first_url_and_stars (years : list YearResult)
    (key : string) (r : Repo)
    (Hget : JsMap.get key (mergeYears years) = Some r) :
  exists first later,
    seen key (entries_of years) = first :: later /\
    nameWithOwner r = key /\
    url r = Some (repository_url first) /\
    stars r = repository_stargazerCount first /\
    contributions r = total (first :: later).
Proof.
  rewrite (mergeYears_inv years key) in Hget.
  destruct (seen key (entries_of years)) as [|first later];
    [discriminate|].
  exists first, later. injection Hget as <-.
  repeat split; reflexivity.
Qed.

Lemma C9_merge_keeps_first_url_and_stars_witness :
  JsMap.get "repoA" (mergeYears repoA_two_years)
    = Some (mkRepo "repoA" (Some "https://example.org/2023") 5 8) /\
  exists first later,
    seen "repoA" (entries_of repoA_two_years) = first :: later /\
    nameWithOwner (mkRepo "repoA" (Some "https://example.org/2023") 5 8)
      = "repoA" /\
    url (mkRepo "repoA" (Some "https://example.org/2023") 5 8)
      = Some (repository_url first) /\
    stars (mkRepo "repoA" (Some "https://example.org/2023") 5 8)
      = repository_stargazerCount first /\
    contributions (mkRepo "repoA" (Some "https://example.org/2023") 5 8)
      = total (first :: later).
Proof.
  assert (H : JsMap.get "repoA" (mergeYears repoA_two_years)
              = Some (mkRepo "repoA" (Some "https://example.org/2023") 5 8))
    by reflexivity.
  split; [exact H|].
  exact (C9_merge_keeps_first_url_and_stars repoA_two_years "repoA" _ H).
Defined.

(** C10, as stated, fails: with limit -1 and three public repositories
    the truncation is not empty, and the rows of the card are not the
    single placeholder row. *)
Lemma C10_negative_limit_not_empty :
  ranking (Num (-1)) (mergeYears three_repos) <> [] /\
  main_rows (Num (-1)) three_repos <> [placeholder] /\
  map contributions (main_rows (Num (-1)) three_repos) = [30; 20].
Proof.
  split; [|split].
  - vm_compute. discriminate.
  - vm_compute. discriminate.
  - reflexivity.
Qed.

(** C10, amended: if the limit parses to 0 or to NaN, the truncation
    yields an empty list whatever the merged repository collection
    holds, so the rows of the card are the single placeholder row, with
    contribution count 0. A negative limit -k instead drops the last k
    entries of the ranking, so that list is empty only when the
    collection holds at most k repositories. *)
Theorem C10_limit_zero_or_nan (years : list YearResult) :
  ranking (Num 0) (mergeYears years) = [] /\
  ranking NaN (mergeYears years) = [] /\
  main_rows (Num 0) years = [placeholder] /\
  main_rows NaN years = [placeholder] /\
  contributions placeholder = 0 /\
  (forall k : positive,
      ranking (Num (Z.neg k)) (mergeYears years)
      = firstn (length (JsMap.values (mergeYears years)) - Pos.to_nat k)
          (JsArray.sort compareRepos (JsMap.values (mergeYears years)))).
Proof.
  assert (H0 : forall l : list Repo, JsArray.slice0 (Num 0) l = []).
  { intros l. unfold JsArray.slice0. simpl.
    destruct (Z.min_spec 0 (Z.of_nat (length l))) as [[_ ->]|[Hge ->]].
    - reflexivity.
    - destruct l; [reflexivity | simpl in Hge; lia]. }
  assert (Hn : forall l : list Repo, JsArray.slice0 NaN l = [])
    by (intros l; apply (H0 l)).
  unfold main_rows, ranking. rewrite H0, Hn.
  repeat split; try reflexivity.
  intros k. rewrite slice0_negative. f_equal. f_equal.
  apply Permutation_length, sort_perm.
Qed.

End ContribProperties.


(* ================================================================== *)
(** ** More about computeStreaks *)
(* ================================================================== *)

Section StreakTotals.
Import Streak.

Lemma fwd_step_total (s : Fwd) (d : Day) :
  f_total (fwd_step s d) = f_total s + count d.
Proof.
  unfold fwd_step.
  destruct (0 <? count d); [|reflexivity].
  destruct (f_longest s <? f_runStreak s + 1); reflexivity.
Qed.

Lemma fold_fwd_total (l : list Day) (s : Fwd) :
  f_total (fold_left fwd_step l s) = f_total s + sum_counts l.
Proof.
  revert s. induction l as [|d l IH]; intros s; simpl.
  - lia.
  - rewrite IH, fwd_step_total. lia.
Qed.

Lemma sum_counts_perm (l1 l2 : list Day) :
  Permutation l1 l2 -> sum_counts l1 = sum_counts l2.
Proof.
  induction 1 as [|x l l' _ IH|x y l|l l' l'' _ IH1 _ IH2]; simpl; lia.
Qed.

Lemma trailing_block_snoc (l : list Day) (d : Day) :
  trailing_block (l ++ [d]) =
  if contributed d then trailing_block l ++ [d] else [].
Proof.
  unfold trailing_block. rewrite rev_app_distr. simpl.
  destruct (contributed d); reflexivity.
Qed.

Lemma trailing_block_length (l : list Day) :
  length (trailing_block l) = trail contributed l.
Proof. unfold trailing_block, trail. apply length_rev. Qed.

Lemma trailing_block_suffix (l : list Day) :
  exists pre, l = pre ++ trailing_block l.
Proof. apply trail_suffix. Qed.

Lemma trailing_block_contributed (l : list Day) :
  Forall (fun d => 1 <= count d) (trailing_block l).
Proof.
  apply (Forall_p_P contributed _ contributed_spec).
  apply Forall_rev, take_while_pass.
Qed.

Lemma first_date_snoc (l : list Day) (d : Day) :
  first_date (l ++ [d]) =
  match l with [] => Some (date d) | _ => first_date l end.
Proof. destruct l; reflexivity. Qed.

Lemma last_date_snoc (l : list Day) (d : Day) :
  last_date (l ++ [d]) = Some (date d).
Proof. unfold last_date. rewrite rev_app_distr. reflexivity. Qed.

Lemma fwd_marks_step (l : list Day) (s : Fwd) (d : Day) :
  fwd_inv l s -> fwd_marks l s -> fwd_marks (l ++ [d]) (fwd_step s d).
Proof.
  intros [Hrun [_ Hmax]] [Hstart Hmarks].
  assert (Hlen : f_runStreak s = Z.of_nat (length (trailing_block l)))
    by (rewrite trailing_block_length; exact Hrun).
  assert (Hstart' :
            (if f_runStreak s =? 0 then Some (date d) else f_runStart s)
            = first_date (trailing_block l ++ [d])).
  { rewrite first_date_snoc, Hstart, Hlen.
    destruct (trailing_block l); reflexivity. }
  assert (Hkeep :
            (exists pre run suf,
               l = pre ++ run ++ suf /\
               Forall (fun d => 1 <= count d) run /\
               0 < f_longest s /\
               Z.of_nat (length run) = f_longest s /\
               f_longestStart s = first_date run /\
               f_longestEnd s = last_date run /\
               forall run', Spec.run_in (pre ++ removelast run) run' ->
                            Forall (fun d => 1 <= count d) run' ->
                            Z.of_nat (length run') < f_longest s) ->
            exists pre run suf,
               l ++ [d] = pre ++ run ++ suf /\
               Forall (fun d => 1 <= count d) run /\
               0 < f_longest s /\
               Z.of_nat (length run) = f_longest s /\
               f_longestStart s = first_date run /\
               f_longestEnd s = last_date run /\
               forall run', Spec.run_in (pre ++ removelast run) run' ->
                            Forall (fun d => 1 <= count d) run' ->
                            Z.of_nat (length run') < f_longest s).
  { intros (pre & run & suf & Hl & H).
    exists pre, run, (suf ++ [d]). split; [|exact H].
    rewrite Hl, <- !app_assoc. reflexivity. }
  unfold fwd_marks. rewrite trailing_block_snoc.
  unfold fwd_step, contributed.
  destruct (0 <? count d) eqn:Hd.
  - destruct (f_longest s <? f_runStreak s + 1) eqn:E; simpl.
    + apply Z.ltb_lt in E. split; [exact Hstart'|]. right.
      destruct (trailing_block_suffix l) as (pre & Hpre).
      exists pre, (trailing_block l ++ [d]), [].
      split; [rewrite app_nil_r, app_assoc, <- Hpre; reflexivity|].
      split.
      { apply Forall_app. split; [apply trailing_block_contributed|].
        constructor; [|constructor]. apply Z.ltb_lt in Hd. lia. }
      split; [lia|].
      split; [rewrite length_app, Hlen; simpl; lia|].
      split; [exact Hstart'|].
      split; [rewrite last_date_snoc; reflexivity|].
      intros run' Hin HP. rewrite removelast_last, <- Hpre in Hin.
      specialize (Hmax run' Hin HP). lia.
    + apply Z.ltb_ge in E. split; [exact Hstart'|]. right.
      destruct Hmarks as [(H0 & _)|Hex]; [lia|].
      apply Hkeep. exact Hex.
  - simpl. split; [reflexivity|].
    destruct Hmarks as [H0|Hex]; [left; exact H0|].
    right. apply Hkeep. exact Hex.
Qed.

Lemma fwd_all_fold (l done : list Day) (s : Fwd) :
  fwd_inv done s -> fwd_marks done s ->
  fwd_inv (done ++ l) (fold_left fwd_step l s) /\
  fwd_marks (done ++ l) (fold_left fwd_step l s).
Proof.
  revert done s. induction l as [|d l IH]; intros done s H1 H2; simpl.
  - rewrite app_nil_r. split; assumption.
  - replace (done ++ d :: l) with ((done ++ [d]) ++ l)
      by (rewrite <- app_assoc; reflexivity).
    apply IH; [apply fwd_inv_step | apply fwd_marks_step]; assumption.
Qed.

Lemma forward_marks (l : list Day) : fwd_marks l (forward l).
Proof.
  apply (fwd_all_fold l [] fwd_init).
  - split; [reflexivity | apply longest_run_nil].
  - split; [reflexivity|]. left. repeat split; reflexivity.
Qed.

End StreakTotals.

Section StreakDates.
Import Streak.

Lemma dated_perm (l1 l2 : list Day) :
  Permutation l1 l2 -> dated l1 -> dated l2.
Proof. intros HP H. unfold dated. eapply Permutation_Forall; eassumption. Qed.

Lemma truthy_date (d : Day) : date d <> "" -> truthy (Some (date d)) = true.
Proof.
  intros H. simpl. apply String.eqb_neq in H. rewrite H. reflexivity.
Qed.

Lemma backward_idle (today : string) (rdays : list Day) (s : Cur) :
  take_while contributed rdays = [] ->
  backward today false rdays s = s.
Proof.
  destruct rdays as [|d rest]; simpl; [reflexivity|].
  unfold contributed. destruct (0 <? count d); [discriminate | reflexivity].
Qed.

Lemma backward_start (today : string) (rdays : list Day) (s : Cur) :
  c_start (backward today false rdays s) =
  match first_date (rev (take_while contributed rdays)) with
  | Some x => Some x
  | None => c_start s
  end.
Proof.
  revert s. induction rdays as [|d rest IH]; intros s; simpl.
  - reflexivity.
  - unfold contributed at 1. destruct (0 <? count d); simpl.
    + rewrite IH. simpl. rewrite first_date_snoc.
      destruct (rev (take_while contributed rest)); reflexivity.
    + reflexivity.
Qed.

Lemma backward_end (today : string) (rdays : list Day) (s : Cur) :
  dated rdays ->
  c_end (backward today false rdays s) =
  if truthy (c_end s) then c_end s
  else match first_date (take_while contributed rdays) with
       | Some x => Some x
       | None => c_end s
       end.
Proof.
  intros H. revert s. induction H as [|d rest Hd _ IH]; intros s; simpl.
  - destruct (truthy (c_end s)); reflexivity.
  - unfold contributed at 1. destruct (0 <? count d); simpl.
    + rewrite IH. simpl.
      destruct (truthy (c_end s)) eqn:T; simpl.
      * rewrite T. reflexivity.
      * pose proof (truthy_date d Hd) as Td. simpl in Td. rewrite Td.
        reflexivity.
    + destruct (truthy (c_end s)); reflexivity.
Qed.

Lemma fold_fwd_first (l : list Day) (s : Fwd) :
  dated l ->
  f_first (fold_left fwd_step l s) =
  if truthy (f_first s) then f_first s
  else match find contributed l with
       | Some d => Some (date d)
       | None => f_first s
       end.
Proof.
  intros H. revert s. induction H as [|d l Hd _ IH]; intros s; simpl.
  - destruct (truthy (f_first s)); reflexivity.
  - rewrite IH. unfold fwd_step, contributed.
    destruct (0 <? count d).
    + assert (Hf : f_first
                (if f_longest s <? f_runStreak s + 1
                 then mkFwd (f_total s + count d) (f_runStreak s + 1)
                        (if f_runStreak s =? 0 then Some (date d)
                         else f_runStart s)
                        (Some (date d)) (f_runStreak s + 1)
                        (if f_runStreak s =? 0 then Some (date d)
                         else f_runStart s)
                        (if negb (truthy (f_first s)) then Some (date d)
                         else f_first s)
                 else mkFwd (f_total s + count d) (f_longest s)
                        (f_longestStart s) (f_longestEnd s)
                        (f_runStreak s + 1)
                        (if f_runStreak s =? 0 then Some (date d)
                         else f_runStart s)
                        (if negb (truthy (f_first s)) then Some (date d)
                         else f_first s))
              = if negb (truthy (f_first s)) then Some (date d)
                else f_first s)
        by (destruct (f_longest s <? f_runStreak s + 1); reflexivity).
      rewrite Hf.
      destruct (truthy (f_first s)) eqn:T; simpl.
      * rewrite T. reflexivity.
      * pose proof (truthy_date d Hd) as Td. simpl in Td. rewrite Td.
        reflexivity.
    + simpl. reflexivity.
Qed.

Lemma find_split (l : list Day) (d : Day) :
  find contributed l = Some d ->
  exists pre suf, l = pre ++ d :: suf /\
    Forall (fun x => contributed x = false) pre /\ contributed d = true.
Proof.
  induction l as [|x l IH]; simpl; [discriminate|].
  destruct (contributed x) eqn:E.
  - intros H. injection H as <-. exists [], l.
    split; [reflexivity|]. split; [constructor | exact E].
  - intros H. destruct (IH H) as (pre & suf & Hl & Hpre & Hd).
    exists (x :: pre), suf. split; [rewrite Hl; reflexivity|].
    split; [constructor; assumption | exact Hd].
Qed.

Lemma find_contributed_none (l : list Day) :
  find contributed l = None -> Forall (fun x => contributed x = false) l.
Proof.
  intros H. apply Forall_forall. intros x Hx.
  exact (List.find_none _ _ H x Hx).
Qed.

Lemma ascending_app_r (l1 l2 : list Day) :
  Spec.ascending (l1 ++ l2) -> Spec.ascending l2.
Proof.
  unfold Spec.ascending. induction l1 as [|x l1 IH]; simpl; intros H.
  - exact H.
  - inversion H; subst. apply IH. assumption.
Qed.

Lemma ascending_head_least (d : Day) (l : list Day) (x : Day) :
  Spec.ascending (d :: l) -> In x (d :: l) ->
  String.ltb (date x) (date d) = false.
Proof.
  intros H [<-|Hx]; [apply ltb_irrefl|].
  inversion H as [|? ? _ Hf]; subst.
  rewrite Forall_forall in Hf. apply (Hf x Hx).
Qed.

(** The first-contribution date on a series without empty date strings. *)
Lemma firstContribDate_find (today : string) (days : list Day) :
  dated days ->
  firstContribDate (computeStreaks today days) =
  match find contributed (JsArray.sort compareDays days) with
  | Some d => date d
  | None =>
      match JsArray.sort compareDays days with
      | [] => today
      | d :: _ => date d
      end
  end.
Proof.
  intros H.
  assert (Hs : dated (JsArray.sort compareDays days))
    by (eapply dated_perm; [apply Permutation_sym, sort_perm | exact H]).
  unfold computeStreaks. simpl. unfold forward.
  rewrite (fold_fwd_first _ fwd_init Hs). simpl.
  destruct (find contributed (JsArray.sort compareDays days)) as [d|] eqn:E.
  - destruct (find_split _ _ E) as (pre & suf & Hl & _ & _).
    assert (Hd : date d <> "").
    { unfold dated in Hs. rewrite Forall_forall in Hs. apply Hs.
      rewrite Hl. apply in_or_app. right. left. reflexivity. }
    unfold js_or. rewrite (truthy_date d Hd). simpl.
    apply String.eqb_neq in Hd. rewrite Hd. reflexivity.
  - destruct (JsArray.sort compareDays days) as [|d l]; simpl.
    + unfold js_or. simpl. destruct (String.eqb today ""); reflexivity.
    + inversion Hs as [|? ? Hd _]; subst.
      unfold js_or. simpl. apply String.eqb_neq in Hd. rewrite Hd.
      reflexivity.
Qed.

Lemma current_marks (today : string) (days : list Day) :
  currentStreakStart (computeStreaks today days)
    = first_date (trailing_block
                    (Spec.scanned today (JsArray.sort compareDays days))) /\
  (dated days ->
   currentStreakEnd (computeStreaks today days)
     = last_date (trailing_block
                    (Spec.scanned today (JsArray.sort compareDays days)))).
Proof.
  unfold computeStreaks. simpl. rewrite backward_first. split.
  - rewrite backward_start. unfold trailing_block.
    destruct (first_date
                (rev (take_while contributed
                        (rev (Spec.scanned today
                                (JsArray.sort compareDays days))))));
      reflexivity.
  - intros H. rewrite backward_end.
    + simpl. unfold last_date, trailing_block. rewrite rev_involutive.
      destruct (first_date
                  (take_while contributed
                     (rev (Spec.scanned today
                             (JsArray.sort compareDays days)))));
        reflexivity.
    + unfold dated. apply Forall_rev.
      destruct (scanned_prefix today (JsArray.sort compareDays days))
        as (suf & Hsuf).
      assert (Hs : dated (JsArray.sort compareDays days))
        by (eapply dated_perm; [apply Permutation_sym, sort_perm | exact H]).
      unfold dated in Hs. rewrite Hsuf in Hs.
      apply Forall_app in Hs. apply Hs.
Qed.

End StreakDates.

Section StreakEdges.
Import Streak.

Lemma run_in_length {A : Type} (l run : list A) :
  Spec.run_in l run -> (length run <= length l)%nat.
Proof.
  intros (pre & suf & ->). rewrite !length_app. lia.
Qed.

Lemma run_in_incl {A : Type} (l run : list A) (x : A) :
  Spec.run_in l run -> In x run -> In x l.
Proof.
  intros (pre & suf & ->) Hx.
  apply in_or_app. right. apply in_or_app. left. exact Hx.
Qed.

Lemma trailing_block_split (l : list Day) :
  exists pre,
    l = pre ++ trailing_block l /\
    (pre = [] \/ exists pre' x, pre = pre' ++ [x] /\ count x <= 0).
Proof.
  unfold trailing_block.
  destruct (take_while_split contributed (rev l)) as (rest & Heq & Hrest).
  exists (rev rest). split.
  - rewrite <- rev_app_distr, <- Heq, rev_involutive. reflexivity.
  - destruct Hrest as [->|(x & rest' & -> & Hx)].
    + left. reflexivity.
    + right. exists (rev rest'), x. split; [reflexivity|].
      unfold contributed in Hx. apply Z.ltb_ge in Hx. exact Hx.
Qed.

Lemma idle_series_no_block (l block : list Day) :
  Forall (fun d => count d <= 0) l ->
  (forall x, In x block -> In x l) ->
  Forall (fun d => 1 <= count d) block ->
  block = [].
Proof.
  intros Hl Hin Hb. destruct block as [|x block]; [reflexivity|].
  exfalso. inversion Hb as [|? ? Hx _]; subst.
  rewrite Forall_forall in Hl.
  specialize (Hl x (Hin x (or_introl eq_refl))). simpl in Hl. lia.
Qed.

Lemma scanned_incl (today : string) (l : list Day) (x : Day) :
  In x (Spec.scanned today l) -> In x l.
Proof.
  intros Hx. destruct (scanned_prefix today l) as (suf & Hsuf).
  rewrite Hsuf. apply in_or_app. left. exact Hx.
Qed.

Lemma trailing_block_incl (l : list Day) (x : Day) :
  In x (trailing_block l) -> In x l.
Proof.
  intros Hx. destruct (trailing_block_suffix l) as (pre & Hpre).
  rewrite Hpre. apply in_or_app. right. exact Hx.
Qed.

Lemma sort_in (l : list Day) (x : Day) :
  In x (JsArray.sort compareDays l) <-> In x l.
Proof.
  split; apply Permutation_in;
    [apply sort_perm | apply Permutation_sym, sort_perm].
Qed.

(** The total is the sum of the counts of all entries handed over,
    whatever their order and also when a date occurs more than once. *)
Theorem totalContributions_sum (today : string) (days : list Day) :
  totalContributions (computeStreaks today days) = sum_counts days.
Proof.
  unfold computeStreaks. simpl. unfold forward.
  rewrite fold_fwd_total. simpl.
  apply sum_counts_perm, sort_perm.
Qed.

(** Both streak lengths are non-negative and neither exceeds the number
    of entries. *)
Theorem streaks_bounded (today : string) (days : list Day) :
  0 <= currentStreak (computeStreaks today days)
    <= Z.of_nat (length days) /\
  0 <= longestStreak (computeStreaks today days)
    <= Z.of_nat (length days).
Proof.
  assert (Hlen : length (JsArray.sort compareDays days) = length days)
    by (apply Permutation_length, sort_perm).
  split.
  - rewrite currentStreak_trail. split; [lia|].
    rewrite <- trailing_block_length.
    destruct (trailing_block_suffix
                (Spec.scanned today (JsArray.sort compareDays days)))
      as (pre & Hpre).
    destruct (scanned_prefix today (JsArray.sort compareDays days))
      as (suf & Hsuf).
    apply (f_equal (@length Day)) in Hsuf, Hpre.
    rewrite length_app in Hsuf, Hpre. lia.
  - destruct (longestStreak_run today days)
      as [(run & Hin & _ & Hrun) _].
    apply run_in_length in Hin. lia.
Qed.

(** When every entry has a contribution, the longest and the current
    streak are both the number of entries, whatever today's date is. *)
Theorem streaks_without_idle_day (today : string) (days : list Day)
    (Hall : Forall (fun d => 0 < count d) days) :
  longestStreak (computeStreaks today days) = Z.of_nat (length days) /\
  currentStreak (computeStreaks today days) = Z.of_nat (length days).
Proof.
  assert (Hlen : length (JsArray.sort compareDays days) = length days)
    by (apply Permutation_length, sort_perm).
  assert (Hs : Forall (fun d => contributed d = true)
                 (JsArray.sort compareDays days)).
  { apply Forall_forall. intros x Hx. apply (proj1 (sort_in _ _)) in Hx.
    rewrite Forall_forall in Hall. specialize (Hall x Hx).
    unfold contributed. apply Z.ltb_lt. exact Hall. }
  split.
  - destruct (longestStreak_run today days)
      as [(run & Hin & _ & Hrun) Hmax].
    apply run_in_length in Hin.
    assert (Z.of_nat (length (JsArray.sort compareDays days))
            <= longestStreak (computeStreaks today days)).
    { apply Hmax.
      - exists [], []. rewrite app_nil_r. reflexivity.
      - apply (Forall_p_P contributed _ contributed_spec). exact Hs. }
    lia.
  - rewrite currentStreak_trail.
    assert (Hsc : Spec.scanned today (JsArray.sort compareDays days)
                  = JsArray.sort compareDays days).
    { unfold Spec.scanned, Spec.last_is_idle_today.
      destruct (rev (JsArray.sort compareDays days)) as [|d rest] eqn:E;
        [reflexivity|].
      assert (Hd : contributed d = true).
      { rewrite Forall_forall in Hs. apply Hs. apply in_rev.
        rewrite E. left. reflexivity. }
      unfold contributed in Hd. apply Z.ltb_lt in Hd.
      replace (count d =? 0) with false
        by (symmetry; apply Z.eqb_neq; lia).
      rewrite andb_false_r. reflexivity. }
    rewrite Hsc. unfold trail.
    rewrite <- (app_nil_r (rev (JsArray.sort compareDays days))).
    rewrite take_while_all by (apply Forall_rev; exact Hs).
    simpl. rewrite app_nil_r, length_rev, Hlen. reflexivity.
Qed.

Lemma streaks_without_idle_day_witness :
  Forall (fun d => 0 < count d) gap_days /\
  longestStreak (computeStreaks "2024-01-09" gap_days)
    = Z.of_nat (length gap_days) /\
  currentStreak (computeStreaks "2024-01-09" gap_days)
    = Z.of_nat (length gap_days).
Proof.
  assert (H : Forall (fun d => 0 < count d) gap_days)
    by (repeat constructor).
  split; [exact H|].
  exact (streaks_without_idle_day "2024-01-09" gap_days H).
Defined.

(** When no entry has a contribution, both streaks are 0 and the four
    streak dates are unset. *)
Theorem streaks_of_idle_series (today : string) (days : list Day)
    (Hidle : Forall (fun d => count d <= 0) days) :
  currentStreak (computeStreaks today days) = 0 /\
  currentStreakStart (computeStreaks today days) = None /\
  currentStreakEnd (computeStreaks today days) = None /\
  longestStreak (computeStreaks today days) = 0 /\
  longestStreakStart (computeStreaks today days) = None /\
  longestStreakEnd (computeStreaks today days) = None.
Proof.
  assert (Hs : Forall (fun d => count d <= 0)
                 (JsArray.sort compareDays days)).
  { apply Forall_forall. intros x Hx. apply (proj1 (sort_in _ _)) in Hx.
    rewrite Forall_forall in Hidle. apply Hidle. exact Hx. }
  assert (Hblock : trailing_block
                     (Spec.scanned today (JsArray.sort compareDays days))
                   = []).
  { apply (idle_series_no_block (JsArray.sort compareDays days)).
    - exact Hs.
    - intros x Hx. apply trailing_block_incl in Hx.
      apply scanned_incl in Hx. exact Hx.
    - apply trailing_block_contributed. }
  assert (Hlong : longestStreak (computeStreaks today days) = 0).
  { destruct (longestStreak_run today days)
      as [(run & Hin & HP & Hrun) _].
    rewrite (idle_series_no_block _ run Hs) in Hrun.
    - symmetry. exact Hrun.
    - intros x Hx. eapply run_in_incl; eassumption.
    - exact HP. }
  assert (Hcur : backward today true (rev (JsArray.sort compareDays days))
                   cur_init = cur_init).
  { rewrite backward_first. apply backward_idle.
    unfold trailing_block in Hblock.
    apply (f_equal (@rev Day)) in Hblock.
    rewrite rev_involutive in Hblock. exact Hblock. }
  split; [|split; [|split; [|split]]].
  - unfold computeStreaks. simpl. rewrite Hcur. reflexivity.
  - unfold computeStreaks. simpl. rewrite Hcur. reflexivity.
  - unfold computeStreaks. simpl. rewrite Hcur. reflexivity.
  - exact Hlong.
  - destruct (forward_marks (JsArray.sort compareDays days))
      as [_ [(_ & H1 & H2)|(pre & run & suf & _ & _ & Hpos & _)]].
    + split; assumption.
    + exfalso. unfold computeStreaks in Hlong. simpl in Hlong. lia.
Qed.

Lemma streaks_of_idle_series_witness :
  Forall (fun d => count d <= 0)
    [mkDay "2024-01-01" 0; mkDay "2024-01-02" 0] /\
  currentStreak
    (computeStreaks "2024-01-02" [mkDay "2024-01-01" 0; mkDay "2024-01-02" 0])
    = 0.
Proof.
  assert (H : Forall (fun d => count d <= 0)
                [mkDay "2024-01-01" 0; mkDay "2024-01-02" 0])
    by (repeat constructor; simpl; lia).
  split; [exact H|].
  exact (proj1 (streaks_of_idle_series "2024-01-02" _ H)).
Defined.

End StreakEdges.

Section StreakMarkers.
Import Streak.

(** When some entry has a contribution, the dates of the longest streak
    are the first and the last date of a run of adjacent entries with a
    contribution, in date order, whose length is the longest streak; among
    the runs of that length it is the earliest: no run of that length
    ends before its last entry. *)
Theorem longest_streak_dates (today : string) (days : list Day)
    (Hsome : Exists (fun d => 1 <= count d) days) :
  exists pre run suf,
    JsArray.sort compareDays days = pre ++ run ++ suf /\
    Forall (fun d => 1 <= count d) run /\
    0 < longestStreak (computeStreaks today days) /\
    Z.of_nat (length run) = longestStreak (computeStreaks today days) /\
    longestStreakStart (computeStreaks today days) = first_date run /\
    longestStreakEnd (computeStreaks today days) = last_date run /\
    (forall run',
        Spec.run_in (pre ++ removelast run) run' ->
        Forall (fun d => 1 <= count d) run' ->
        Z.of_nat (length run') < longestStreak (computeStreaks today days)).
Proof.
  assert (Hpos : 0 < longestStreak (computeStreaks today days)).
  { apply Exists_exists in Hsome. destruct Hsome as (d & Hd & Hc).
    apply (proj2 (sort_in _ _)) in Hd.
    destruct (in_split _ _ Hd) as (l1 & l2 & Hl).
    destruct (longestStreak_run today days) as [_ Hmax].
    assert (Z.of_nat (length [d])
            <= longestStreak (computeStreaks today days)).
    { apply Hmax; [exists l1, l2; exact Hl | repeat constructor; exact Hc]. }
    change (Z.of_nat (length [d])) with 1 in H. lia. }
  destruct (forward_marks (JsArray.sort compareDays days))
    as [_ [(H0 & _)|Hex]].
  - exfalso. unfold computeStreaks in Hpos. simpl in Hpos. lia.
  - exact Hex.
Qed.

Lemma longest_streak_dates_witness :
  Exists (fun d => 1 <= count d) example_days /\
  exists pre run suf,
    JsArray.sort compareDays example_days = pre ++ run ++ suf /\
    Forall (fun d => 1 <= count d) run /\
    0 < longestStreak (computeStreaks "2024-01-04" example_days) /\
    Z.of_nat (length run)
      = longestStreak (computeStreaks "2024-01-04" example_days) /\
    longestStreakStart (computeStreaks "2024-01-04" example_days)
      = first_date run /\
    longestStreakEnd (computeStreaks "2024-01-04" example_days)
      = last_date run /\
    (forall run',
        Spec.run_in (pre ++ removelast run) run' ->
        Forall (fun d => 1 <= count d) run' ->
        Z.of_nat (length run')
          < longestStreak (computeStreaks "2024-01-04" example_days)).
Proof.
  assert (H : Exists (fun d => 1 <= count d) example_days)
    by (apply Exists_cons_hd; simpl; lia).
  split; [exact H|].
  exact (longest_streak_dates "2024-01-04" example_days H).
Defined.

(** On a series without empty date strings, the current streak and its
    dates describe the trailing block of the scanned entries (all entries
    in date order, without the last one when it is today's with count 0):
    the block holds the entries with a contribution after the last entry
    without one; the streak is its length, the start its first date and
    the end its last date (both unset when the block is empty). *)
Theorem current_streak_dates (today : string) (days : list Day)
    (Hdated : dated days) :
  exists pre run,
    Spec.scanned today (JsArray.sort compareDays days) = pre ++ run /\
    Forall (fun d => 1 <= count d) run /\
    (pre = [] \/ exists pre' x, pre = pre' ++ [x] /\ count x <= 0) /\
    currentStreak (computeStreaks today days) = Z.of_nat (length run) /\
    currentStreakStart (computeStreaks today days) = first_date run /\
    currentStreakEnd (computeStreaks today days) = last_date run.
Proof.
  destruct (trailing_block_split
              (Spec.scanned today (JsArray.sort compareDays days)))
    as (pre & Hpre & Hbreak).
  exists pre,
    (trailing_block (Spec.scanned today (JsArray.sort compareDays days))).
  destruct (current_marks today days) as [Hstart Hend].
  split; [exact Hpre|].
  split; [apply trailing_block_contributed|].
  split; [exact Hbreak|].
  split; [rewrite currentStreak_trail, trailing_block_length; reflexivity|].
  split; [exact Hstart | exact (Hend Hdated)].
Qed.

Lemma current_streak_dates_witness :
  dated example_days_idle_today /\
  exists pre run,
    Spec.scanned "2024-01-05"
      (JsArray.sort compareDays example_days_idle_today) = pre ++ run /\
    Forall (fun d => 1 <= count d) run /\
    (pre = [] \/ exists pre' x, pre = pre' ++ [x] /\ count x <= 0) /\
    currentStreak (computeStreaks "2024-01-05" example_days_idle_today)
      = Z.of_nat (length run) /\
    currentStreakStart (computeStreaks "2024-01-05" example_days_idle_today)
      = first_date run /\
    currentStreakEnd (computeStreaks "2024-01-05" example_days_idle_today)
      = last_date run.
Proof.
  assert (H : dated example_days_idle_today)
    by (repeat constructor; simpl; discriminate).
  split; [exact H|].
  exact (current_streak_dates "2024-01-05" example_days_idle_today H).
Defined.

(** On a series without empty date strings in which some entry has a
    contribution, the first-contribution date is the date of an entry
    with a contribution, and no entry with a contribution has an earlier
    date. *)
Theorem first_contribution_is_earliest (today : string) (days : list Day)
    (Hdated : dated days)
    (Hsome : Exists (fun d => 1 <= count d) days) :
  exists d0,
    In d0 days /\ 1 <= count d0 /\
    firstContribDate (computeStreaks today days) = date d0 /\
    forall d, In d days -> 1 <= count d ->
              String.ltb (date d) (date d0) = false.
Proof.
  rewrite (firstContribDate_find today days Hdated).
  destruct (find contributed (JsArray.sort compareDays days)) as [d0|] eqn:E.
  - destruct (find_split _ _ E) as (pre & suf & Hl & Hpre & Hd0).
    exists d0. split; [|split; [|split]].
    + apply sort_in. rewrite Hl. apply in_or_app. right. left. reflexivity.
    + apply contributed_spec. exact Hd0.
    + reflexivity.
    + intros d Hd Hc. apply (proj2 (sort_in _ _)) in Hd.
      rewrite Hl in Hd. apply in_app_or in Hd. destruct Hd as [Hd|Hd].
      * exfalso. rewrite Forall_forall in Hpre. specialize (Hpre d Hd).
        apply contributed_spec in Hc. congruence.
      * apply (ascending_head_least d0 suf); [|exact Hd].
        apply (ascending_app_r pre). rewrite <- Hl. apply sort_ascending.
  - exfalso. apply find_contributed_none in E.
    apply Exists_exists in Hsome. destruct Hsome as (d & Hd & Hc).
    apply (proj2 (sort_in _ _)) in Hd.
    rewrite Forall_forall in E. specialize (E d Hd).
    apply contributed_spec in Hc. congruence.
Qed.

Lemma first_contribution_is_earliest_witness :
  dated (rev example_days) /\
  Exists (fun d => 1 <= count d) (rev example_days) /\
  exists d0,
    In d0 (rev example_days) /\ 1 <= count d0 /\
    firstContribDate (computeStreaks "2024-01-04" (rev example_days))
      = date d0 /\
    forall d, In d (rev example_days) -> 1 <= count d ->
              String.ltb (date d) (date d0) = false.
Proof.
  assert (H : dated (rev example_days))
    by (repeat constructor; simpl; discriminate).
  assert (H' : Exists (fun d => 1 <= count d) (rev example_days))
    by (apply Exists_cons_hd; simpl; lia).
  split; [exact H|]. split; [exact H'|].
  exact (first_contribution_is_earliest "2024-01-04" _ H H').
Defined.

(** On a series without empty date strings in which no entry has a
    contribution, the first-contribution date falls back to the earliest
    date of the series, and to today's date when the series is empty. *)
Theorem first_contribution_fallback (today : string) (days : list Day)
    (Hdated : dated days)
    (Hidle : Forall (fun d => count d <= 0) days) :
  (days = [] /\ firstContribDate (computeStreaks today days) = today) \/
  (exists d0,
      In d0 days /\
      firstContribDate (computeStreaks today days) = date d0 /\
      forall d, In d days -> String.ltb (date d) (date d0) = false).
Proof.
  rewrite (firstContribDate_find today days Hdated).
  destruct (find contributed (JsArray.sort compareDays days)) as [d0|] eqn:E.
  - exfalso. destruct (find_split _ _ E) as (pre & suf & Hl & _ & Hd0).
    assert (Hin : In d0 days).
    { apply sort_in. rewrite Hl. apply in_or_app. right. left. reflexivity. }
    rewrite Forall_forall in Hidle. specialize (Hidle d0 Hin).
    apply contributed_spec in Hd0. lia.
  - destruct (JsArray.sort compareDays days) as [|d0 l] eqn:Hs.
    + left. split; [|reflexivity].
      pose proof (sort_perm compareDays days) as HP. rewrite Hs in HP.
      apply Permutation_nil in HP. exact HP.
    + right. exists d0. split; [|split].
      * apply sort_in. rewrite Hs. left. reflexivity.
      * reflexivity.
      * intros d Hd. apply (proj2 (sort_in _ _)) in Hd. rewrite Hs in Hd.
        apply (ascending_head_least d0 l); [|exact Hd].
        rewrite <- Hs. apply sort_ascending.
Qed.

Lemma first_contribution_fallback_witness :
  dated (@nil Day) /\ Forall (fun d => count d <= 0) (@nil Day) /\
  ((@nil Day = [] /\
    firstContribDate (computeStreaks "2024-01-04" []) = "2024-01-04") \/
   (exists d0,
       In d0 [] /\
       firstContribDate (computeStreaks "2024-01-04" []) = date d0 /\
       forall d, In d [] -> String.ltb (date d) (date d0) = false)).
Proof.
  assert (H : dated (@nil Day)) by constructor.
  assert (H' : Forall (fun d => count d <= 0) (@nil Day)) by constructor.
  split; [exact H|]. split; [exact H'|].
  exact (first_contribution_fallback "2024-01-04" [] H H').
Defined.

End StreakMarkers.

(* ================================================================== *)
(** ** More about the de-duplication and the pipeline of main *)
(* ================================================================== *)

Section DedupFacts.
Import Streak.

Lemma set_fresh {V : Type} (k : string) (v : V) (m : JsMap.t V) :
  JsMap.get k m = None -> JsMap.set k v m = m ++ [(k, v)].
Proof.
  induction m as [|[k' v'] m IH]; simpl; [reflexivity|].
  destruct (String.eqb k k'); [discriminate|].
  intros H. rewrite (IH H). reflexivity.
Qed.

Lemma dedupMap_inv (l : list Day) : dedup_inv l (dedupMap l).
Proof.
  apply (dedup_inv_fold l [] JsMap.empty).
  split; [constructor|]. split.
  - intros k d H. discriminate.
  - intros e [].
Qed.

Lemma uniqueDays_dates (l : list Day) :
  map date (uniqueDays l) = JsMap.keys (dedupMap l).
Proof.
  destruct (dedupMap_inv l) as (Hnd & Hmax & _).
  unfold uniqueDays, JsMap.values, JsMap.keys. rewrite map_map.
  apply map_ext_in. intros [k d] Hin. simpl.
  apply (in_get _ _ _ Hnd) in Hin.
  destruct (Hmax _ _ Hin) as (Hd & _). exact Hd.
Qed.

Lemma uniqueDays_unique (l : list Day) : Spec.unique_dates (uniqueDays l).
Proof.
  unfold Spec.unique_dates. rewrite uniqueDays_dates.
  apply (dedupMap_inv l).
Qed.

(** The kept entries are the fetched entries that no fetched entry of
    the same date exceeds. *)
Lemma uniqueDays_in (l : list Day) (d : Day) :
  In d (uniqueDays l) <->
  In d l /\ forall e, In e l -> date e = date d -> count e <= count d.
Proof.
  destruct (dedupMap_inv l) as (Hnd & Hmax & Hall).
  unfold uniqueDays. rewrite (in_values _ _ Hnd). split.
  - intros (k & Hk). destruct (Hmax _ _ Hk) as (Hd & Hin & Hle).
    split; [exact Hin|]. intros e He Hde. apply Hle; congruence.
  - intros (Hin & Hle). exists (date d).
    destruct (JsMap.get (date d) (dedupMap l)) as [d'|] eqn:E.
    + destruct (Hmax _ _ E) as (Hd' & Hin' & Hle').
      specialize (Hle d' Hin' Hd'). specialize (Hle' d Hin eq_refl).
      f_equal. destruct d as [dd dc], d' as [dd' dc']. simpl in *.
      f_equal; [exact Hd' | lia].
    + exfalso. apply (Hall d Hin). exact E.
Qed.

Lemma fold_dedup_fresh (l done : list Day) :
  NoDup (map date (done ++ l)) ->
  fold_left dedup_step l (map (fun d => (date d, d)) done)
  = map (fun d => (date d, d)) (done ++ l).
Proof.
  revert done. induction l as [|x l IH]; intros done H; simpl.
  - rewrite app_nil_r. reflexivity.
  - replace (done ++ x :: l) with ((done ++ [x]) ++ l) in *
      by (rewrite <- app_assoc; reflexivity).
    rewrite <- IH by exact H. f_equal.
    unfold dedup_step.
    assert (Hnone : JsMap.get (date x) (map (fun d => (date d, d)) done)
                    = None).
    { apply get_none_keys. unfold JsMap.keys. rewrite map_map. simpl.
      rewrite map_app, map_app in H. simpl in H.
      rewrite <- app_assoc in H. simpl in H.
      apply NoDup_remove_2 in H. intros Hin. apply H.
      apply in_or_app. left. exact Hin. }
    rewrite Hnone, set_fresh by exact Hnone.
    rewrite map_app. reflexivity.
Qed.

Lemma fold_dedup_absorb (l2 : list Day) (seen : list Day)
    (m : JsMap.t Day) :
  dedup_inv seen m -> (forall e, In e l2 -> In e seen) ->
  fold_left dedup_step l2 m = m.
Proof.
  intros (Hnd & Hmax & Hall).
  induction l2 as [|x l2 IH]; intros Hin; simpl; [reflexivity|].
  assert (Hx : In x seen) by (apply Hin; left; reflexivity).
  assert (Hstep : dedup_step m x = m).
  { unfold dedup_step.
    destruct (JsMap.get (date x) m) as [existing|] eqn:E.
    - destruct (Hmax _ _ E) as (_ & _ & Hle).
      specialize (Hle x Hx eq_refl).
      replace (count existing <? count x) with false
        by (symmetry; apply Z.ltb_ge; exact Hle).
      reflexivity.
    - exfalso. apply (Hall x Hx). exact E. }
  rewrite Hstep. apply IH. intros e He. apply Hin. right. exact He.
Qed.

Lemma sort_perm_unique_eq (l1 l2 : list Day) :
  Permutation l1 l2 -> Spec.unique_dates l1 ->
  JsArray.sort compareDays l1 = JsArray.sort compareDays l2.
Proof.
  intros Hperm Huniq.
  apply ascending_perm_eq; try apply sort_ascending.
  - eapply unique_dates_perm; [|exact Huniq].
    apply Permutation_sym, sort_perm.
  - eapply Permutation_trans; [apply sort_perm|].
    eapply Permutation_trans; [exact Hperm|].
    apply Permutation_sym, sort_perm.
Qed.

End DedupFacts.

Section Pipeline.
Import Streak.

(** A series that holds no date twice passes the de-duplication
    unchanged, in the same order. *)
Theorem uniqueDays_of_unique_series (l : list Day)
    (Huniq : Spec.unique_dates l) :
  uniqueDays l = l.
Proof.
  unfold uniqueDays, dedupMap.
  change (@JsMap.empty Day) with (map (fun d : Day => (date d, d)) []).
  rewrite fold_dedup_fresh by exact Huniq.
  unfold JsMap.values. simpl. rewrite map_map. simpl. apply map_id.
Qed.

Lemma uniqueDays_of_unique_series_witness :
  Spec.unique_dates example_days /\ uniqueDays example_days = example_days.
Proof.
  assert (H : Spec.unique_dates example_days).
  { unfold Spec.unique_dates. simpl.
    repeat constructor; simpl; intuition discriminate. }
  split; [exact H|].
  exact (uniqueDays_of_unique_series example_days H).
Defined.

(** De-duplication is idempotent. *)
Theorem uniqueDays_idempotent (l : list Day) :
  uniqueDays (uniqueDays l) = uniqueDays l.
Proof.
  unfold uniqueDays at 1, dedupMap.
  change (@JsMap.empty Day) with (map (fun d : Day => (date d, d)) []).
  rewrite fold_dedup_fresh by apply uniqueDays_unique.
  unfold JsMap.values. simpl. rewrite map_map. simpl. apply map_id.
Qed.

(** Fetching again entries that were fetched before (the same date with
    the same count, as at the overlap of two year windows) changes
    neither the de-duplicated series nor its order. *)
Theorem uniqueDays_absorbs_refetched (l again : list Day)
    (Hagain : forall e, In e again -> In e l) :
  uniqueDays (l ++ again) = uniqueDays l.
Proof.
  unfold uniqueDays, dedupMap. rewrite fold_left_app.
  fold (dedupMap l).
  rewrite (fold_dedup_absorb again l _ (dedupMap_inv l) Hagain).
  reflexivity.
Qed.

Lemma uniqueDays_absorbs_refetched_witness :
  (forall e, In e example_days -> In e example_days) /\
  uniqueDays (example_days ++ example_days) = uniqueDays example_days.
Proof.
  assert (H : forall e, In e example_days -> In e example_days)
    by (intros e He; exact He).
  split; [exact H|].
  exact (uniqueDays_absorbs_refetched example_days example_days H).
Defined.

(** The statistics of [main] depend only on which (date, count) entries
    were fetched, not on their order nor on how often each one was
    fetched. *)
Theorem main_stats_depend_on_fetched_set (today : string)
    (years1 years2 : list StreakMain.YearCalendar)
    (Hsame : forall d, In d (StreakMain.allDays years1)
                       <-> In d (StreakMain.allDays years2)) :
  StreakMain.main_stats today years1 = StreakMain.main_stats today years2.
Proof.
  unfold StreakMain.main_stats.
  assert (HP : Permutation (uniqueDays (StreakMain.allDays years1))
                           (uniqueDays (StreakMain.allDays years2))).
  { apply NoDup_Permutation.
    - apply (NoDup_map_inv date), uniqueDays_unique.
    - apply (NoDup_map_inv date), uniqueDays_unique.
    - intros d. rewrite !uniqueDays_in. split; intros (Hin & Hle).
      + split; [apply Hsame; exact Hin|].
        intros e He. apply Hle, Hsame, He.
      + split; [apply Hsame; exact Hin|].
        intros e He. apply Hle, Hsame, He. }
  unfold computeStreaks.
  rewrite (sort_perm_unique_eq _ _ HP (uniqueDays_unique _)).
  reflexivity.
Qed.

Lemma main_stats_depend_on_fetched_set_witness :
  (forall d, In d (StreakMain.allDays calendar_once)
             <-> In d (StreakMain.allDays calendar_overlapping)) /\
  StreakMain.main_stats "2024-01-01" calendar_once
    = StreakMain.main_stats "2024-01-01" calendar_overlapping.
Proof.
  assert (H : forall d, In d (StreakMain.allDays calendar_once)
                        <-> In d (StreakMain.allDays calendar_overlapping))
    by (intros d; simpl; tauto).
  split; [exact H|].
  exact (main_stats_depend_on_fetched_set "2024-01-01" _ _ H).
Defined.

End Pipeline.

(* ================================================================== *)
(** ** More about the repository merge *)
(* ================================================================== *)

Section MergeFacts.
Import Contrib.

Lemma values_set_sum (k : string) (v : Repo) (m : JsMap.t Repo) :
  sum_contributions (JsMap.values (JsMap.set k v m))
  = sum_contributions (JsMap.values m) + contributions v
    - match JsMap.get k m with
      | Some old => contributions old
      | None => 0
      end.
Proof.
  induction m as [|[k' v'] m IH]; simpl; [lia|].
  destruct (String.eqb k k'); simpl; [lia|].
  rewrite IH. lia.
Qed.

Lemma merge_step_sum (m : JsMap.t Repo) (e : Entry) :
  sum_contributions (JsMap.values (merge_step m e))
  = sum_contributions (JsMap.values m)
    + if repository_isPrivate e then 0 else contributions_totalCount e.
Proof.
  unfold merge_step. destruct (repository_isPrivate e); [lia|].
  destruct (JsMap.get (repository_nameWithOwner e) m) as [existing|] eqn:E;
    rewrite values_set_sum, E; simpl; lia.
Qed.

Lemma total_public_cons (e : Entry) (es : list Entry) :
  total (public (e :: es))
  = (if repository_isPrivate e then 0 else contributions_totalCount e)
    + total (public es).
Proof.
  unfold public. simpl. destruct (repository_isPrivate e); simpl; lia.
Qed.

Lemma fold_merge_sum (es : list Entry) (m : JsMap.t Repo) :
  sum_contributions (JsMap.values (fold_left merge_step es m))
  = sum_contributions (JsMap.values m) + total (public es).
Proof.
  revert m. induction es as [|e es IH]; intros m.
  - simpl. lia.
  - cbn [fold_left]. rewrite IH, merge_step_sum, total_public_cons. lia.
Qed.

Lemma merge_step_keys (m : JsMap.t Repo) (e : Entry) :
  JsMap.keys (merge_step m e) =
  if repository_isPrivate e then JsMap.keys m
  else if existsb (String.eqb (repository_nameWithOwner e)) (JsMap.keys m)
       then JsMap.keys m
       else JsMap.keys m ++ [repository_nameWithOwner e].
Proof.
  unfold merge_step. destruct (repository_isPrivate e); [reflexivity|].
  assert (Hex : existsb (String.eqb (repository_nameWithOwner e))
                  (JsMap.keys m)
                = match JsMap.get (repository_nameWithOwner e) m with
                  | Some _ => true
                  | None => false
                  end).
  { destruct (JsMap.get (repository_nameWithOwner e) m) eqn:E.
    - apply existsb_exists. exists (repository_nameWithOwner e).
      split; [|apply String.eqb_refl].
      destruct (in_dec string_dec (repository_nameWithOwner e)
                  (JsMap.keys m)) as [Hin|Hnin]; [exact Hin|].
      apply get_none_keys in Hnin. congruence.
    - apply get_none_keys in E.
      destruct (existsb (String.eqb (repository_nameWithOwner e))
                  (JsMap.keys m)) eqn:X; [|reflexivity].
      exfalso. apply existsb_exists in X. destruct X as (k & Hk & Heq).
      apply String.eqb_eq in Heq. subst k. exact (E Hk). }
  rewrite Hex.
  destruct (JsMap.get (repository_nameWithOwner e) m) eqn:E;
    rewrite keys_set, E; reflexivity.
Qed.

Lemma fold_merge_keys (es : list Entry) (m : JsMap.t Repo) :
  JsMap.keys (fold_left merge_step es m) =
  fold_left
    (fun acc k => if existsb (String.eqb k) acc then acc else acc ++ [k])
    (map repository_nameWithOwner (public es)) (JsMap.keys m).
Proof.
  revert m. induction es as [|e es IH]; intros m; [reflexivity|].
  cbn [fold_left]. rewrite IH, merge_step_keys.
  unfold public. cbn [filter].
  destruct (repository_isPrivate e); reflexivity.
Qed.

Lemma merge_step_nodup (m : JsMap.t Repo) (e : Entry) :
  NoDup (JsMap.keys m) -> NoDup (JsMap.keys (merge_step m e)).
Proof.
  intros H. unfold merge_step.
  destruct (repository_isPrivate e); [exact H|].
  destruct (JsMap.get (repository_nameWithOwner e) m);
    apply keys_set_nodup; exact H.
Qed.

Lemma fold_merge_nodup (es : list Entry) (m : JsMap.t Repo) :
  NoDup (JsMap.keys m) -> NoDup (JsMap.keys (fold_left merge_step es m)).
Proof.
  revert m. induction es as [|e es IH]; intros m H; simpl; [exact H|].
  apply IH, merge_step_nodup, H.
Qed.

Lemma mergeYears_nodup (years : list YearResult) :
  NoDup (JsMap.keys (mergeYears years)).
Proof.
  unfold mergeYears. rewrite mergeYears_entries.
  apply fold_merge_nodup. constructor.
Qed.

Lemma seen_nonempty (key : string) (es : list Entry) :
  seen key es <> [] <->
  exists e, In e es /\ repository_isPrivate e = false
            /\ repository_nameWithOwner e = key.
Proof.
  unfold seen. split.
  - intros H.
    destruct (filter _ es) as [|e rest] eqn:F; [congruence|].
    assert (Hin : In e (filter
                          (fun e => negb (repository_isPrivate e)
                                    && String.eqb (repository_nameWithOwner e)
                                                  key) es))
      by (rewrite F; left; reflexivity).
    apply filter_In in Hin. destruct Hin as (Hin & Hc).
    apply andb_true_iff in Hc. destruct Hc as (Hp & Hk).
    exists e. split; [exact Hin|]. split.
    + destruct (repository_isPrivate e); [discriminate | reflexivity].
    + apply String.eqb_eq. exact Hk.
  - intros (e & Hin & Hp & Hk) F.
    assert (Hf : In e (filter
                         (fun e => negb (repository_isPrivate e)
                                   && String.eqb (repository_nameWithOwner e)
                                                 key) es)).
    { apply filter_In. split; [exact Hin|].
      rewrite Hp, Hk, String.eqb_refl. reflexivity. }
    rewrite F in Hf. exact Hf.
Qed.

End MergeFacts.

Section MergeProperties.
Import Contrib.

(** The contributions of the merged rows add up to the contributions of
    all entries fetched for public repositories: no contribution is lost
    or counted twice, and none of a private repository is counted. *)
Theorem merge_conserves_contributions (years : list YearResult) :
  sum_contributions (JsMap.values (mergeYears years))
  = total (public (entries_of years)).
Proof.
  unfold mergeYears. rewrite mergeYears_entries, fold_merge_sum.
  simpl. lia.
Qed.

(** The merged collection has one row per repository name, and its rows
    are exactly the names for which an entry of a public repository was
    fetched. *)
Theorem merge_one_row_per_public_name (years : list YearResult) :
  NoDup (map nameWithOwner (JsMap.values (mergeYears years))) /\
  (forall name,
      In name (map nameWithOwner (JsMap.values (mergeYears years))) <->
      exists e, In e (entries_of years) /\
                repository_isPrivate e = false /\
                repository_nameWithOwner e = name).
Proof.
  pose proof (mergeYears_nodup years) as Hnd.
  pose proof (mergeYears_inv years) as Hinv.
  assert (Hnames : map nameWithOwner (JsMap.values (mergeYears years))
                   = JsMap.keys (mergeYears years)).
  { unfold JsMap.values, JsMap.keys. rewrite map_map.
    apply map_ext_in. intros [k r] Hin. simpl.
    apply (in_get _ _ _ Hnd) in Hin. rewrite (Hinv k) in Hin.
    destruct (seen k (entries_of years)); [discriminate|].
    injection Hin as <-. reflexivity. }
  rewrite Hnames. split; [exact Hnd|].
  intros name. rewrite <- seen_nonempty. split.
  - intros Hin F.
    assert (Hget : JsMap.get name (mergeYears years) = None)
      by (rewrite (Hinv name), F; reflexivity).
    apply get_none_keys in Hget. exact (Hget Hin).
  - intros Hseen.
    destruct (in_dec string_dec name (JsMap.keys (mergeYears years)))
      as [Hin|Hnin]; [exact Hin|].
    exfalso. apply get_none_keys in Hnin. rewrite (Hinv name) in Hnin.
    destruct (seen name (entries_of years)); [apply Hseen; reflexivity|].
    discriminate.
Qed.

(** The rows of the merged collection stand in the order in which their
    repositories first occur among the entries of public repositories,
    over all year windows. *)
Theorem merge_keeps_first_seen_order (years : list YearResult) :
  map nameWithOwner (JsMap.values (mergeYears years))
  = first_occurrences
      (map repository_nameWithOwner (public (entries_of years))).
Proof.
  pose proof (mergeYears_nodup years) as Hnd.
  pose proof (mergeYears_inv years) as Hinv.
  assert (Hnames : map nameWithOwner (JsMap.values (mergeYears years))
                   = JsMap.keys (mergeYears years)).
  { unfold JsMap.values, JsMap.keys. rewrite map_map.
    apply map_ext_in. intros [k r] Hin. simpl.
    apply (in_get _ _ _ Hnd) in Hin. rewrite (Hinv k) in Hin.
    destruct (seen k (entries_of years)); [discriminate|].
    injection Hin as <-. reflexivity. }
  rewrite Hnames. unfold mergeYears.
  rewrite mergeYears_entries, fold_merge_keys. reflexivity.
Qed.

End MergeProperties.

(* ================================================================== *)
(** ** More about the ranking *)
(* ================================================================== *)

Section RankingProperties.
Import Contrib.

Lemma descending_app (l1 l2 : list Repo) (a b : Repo) :
  descending (l1 ++ l2) -> In a l1 -> In b l2 ->
  contributions b <= contributions a.
Proof.
  unfold descending. induction l1 as [|x l1 IH]; simpl; intros H Ha Hb.
  - destruct Ha.
  - inversion H as [|? ? Hs Hf]; subst. destruct Ha as [<-|Ha].
    + rewrite Forall_forall in Hf. apply (Hf b).
      apply in_or_app. right. exact Hb.
    + apply IH; assumption.
Qed.

Lemma slice0_prefix {A : Type} (LIMIT : jsnum) (l : list A) :
  exists n, JsArray.slice0 LIMIT l = firstn n l.
Proof. unfold JsArray.slice0. eexists. reflexivity. Qed.

(** For a limit N >= 0 the ranking takes repositories with the most
    contributions: the collection splits into the ranking and the rest,
    and no repository of the rest has more contributions than one of the
    ranking. *)
Theorem ranking_takes_the_largest (repoMap : JsMap.t Repo) (N : Z)
    (HN : 0 <= N) :
  exists rest,
    Permutation (ranking (Num N) repoMap ++ rest) (JsMap.values repoMap) /\
    forall a b, In a (ranking (Num N) repoMap) -> In b rest ->
                contributions b <= contributions a.
Proof.
  unfold ranking. rewrite slice0_nonneg by exact HN.
  exists (skipn (Z.to_nat N)
            (JsArray.sort compareRepos (JsMap.values repoMap))).
  split.
  - rewrite firstn_skipn. apply sort_perm.
  - intros a b Ha Hb.
    apply (descending_app
             (firstn (Z.to_nat N)
                (JsArray.sort compareRepos (JsMap.values repoMap)))
             (skipn (Z.to_nat N)
                (JsArray.sort compareRepos (JsMap.values repoMap))));
      try assumption.
    rewrite firstn_skipn. apply sort_descending.
Qed.

Lemma ranking_takes_the_largest_witness :
  0 <= 2 /\
  exists rest,
    Permutation (ranking (Num 2) (mergeYears three_repos) ++ rest)
                (JsMap.values (mergeYears three_repos)) /\
    forall a b, In a (ranking (Num 2) (mergeYears three_repos)) ->
                In b rest -> contributions b <= contributions a.
Proof.
  assert (H : 0 <= 2) by lia.
  split; [exact H|].
  exact (ranking_takes_the_largest (mergeYears three_repos) 2 H).
Defined.

(** For a limit N >= 0 the card has min(N, number of repositories) rows,
    and one row, the placeholder, when that is 0; its height is 55 plus
    70 for each row. *)
Theorem card_row_count (years : list YearResult) (N : Z) (HN : 0 <= N) :
  Z.of_nat (length (main_rows (Num N) years))
  = Z.max 1 (Z.min N (Z.of_nat (length (JsMap.values (mergeYears years)))))
  /\
  Card.HEIGHT (main_rows (Num N) years)
  = 55 + 70 * Z.max 1
                (Z.min N (Z.of_nat (length (JsMap.values (mergeYears years))))).
Proof.
  assert (Hrows :
            Z.of_nat (length (main_rows (Num N) years))
            = Z.max 1 (Z.min N (Z.of_nat
                                  (length (JsMap.values (mergeYears years)))))).
  2: { split; [exact Hrows|].
       unfold Card.HEIGHT, Card.PADDING_TOP, Card.ROW_HEIGHT,
         Card.PADDING_BOTTOM.
       rewrite Hrows. lia. }
  unfold main_rows, ranking. rewrite slice0_nonneg by exact HN.
  assert (Hlen : length (JsArray.sort compareRepos
                           (JsMap.values (mergeYears years)))
                 = length (JsMap.values (mergeYears years)))
    by (apply Permutation_length, sort_perm).
  unfold with_placeholder. rewrite length_firstn, Hlen.
  destruct (Nat.eqb_spec
              (Nat.min (Z.to_nat N)
                 (length (JsMap.values (mergeYears years)))) 0) as [E|E].
  - rewrite length_app, length_firstn, Hlen, E. simpl. lia.
  - rewrite length_firstn, Hlen. lia.
Qed.

Lemma card_row_count_witness :
  0 <= 2 /\
  Z.of_nat (length (main_rows (Num 2) three_repos))
  = Z.max 1 (Z.min 2
               (Z.of_nat (length (JsMap.values (mergeYears three_repos))))).
Proof.
  assert (H : 0 <= 2) by lia.
  split; [exact H|].
  exact (proj1 (card_row_count three_repos 2 H)).
Defined.

(** Whatever the limit is, the rows of the card are either the single
    placeholder row or rows of the merged collection only: the
    placeholder never stands beside a repository. *)
Theorem rows_are_repositories_or_placeholder (LIMIT : jsnum)
    (years : list YearResult) :
  main_rows LIMIT years = [placeholder] \/
  (main_rows LIMIT years = ranking LIMIT (mergeYears years) /\
   forall r, In r (main_rows LIMIT years) ->
             In r (JsMap.values (mergeYears years))).
Proof.
  unfold main_rows, with_placeholder.
  destruct (ranking LIMIT (mergeYears years)) as [|r0 rows] eqn:E.
  - left. reflexivity.
  - right. cbn [length Nat.eqb]. split; [reflexivity|].
    intros r Hr. rewrite <- E in Hr. unfold ranking in Hr.
    destruct (slice0_prefix LIMIT
                (JsArray.sort compareRepos
                   (JsMap.values (mergeYears years)))) as (n & Hn).
    rewrite Hn in Hr.
    eapply Permutation_in; [apply sort_perm|].
    rewrite <- (firstn_skipn n). apply in_or_app. left. exact Hr.
Qed.

End RankingProperties.

(* ================================================================== *)
(** ** The card of the contributed repositories *)
(* ================================================================== *)

Section EscapeFacts.
Import Card.
Local Open Scope string_scope.

Lemma append_assoc (a b c : string) : (a ++ b) ++ c = a ++ (b ++ c).
Proof. induction a as [|x a IH]; simpl; [reflexivity | rewrite IH; reflexivity]. Qed.

Lemma replace_char_app (c : ascii) (by_ s1 s2 : string) :
  replace_char c by_ (s1 ++ s2)
  = replace_char c by_ s1 ++ replace_char c by_ s2.
Proof.
  induction s1 as [|a s1 IH]; simpl; [reflexivity|].
  destruct (Ascii.eqb a c); rewrite IH; [|reflexivity].
  rewrite append_assoc. reflexivity.
Qed.

(** The four passes act as one pass over the characters. *)
Lemma escapeXml_cons (a : ascii) (s : string) :
  escapeXml (String a s) = entity a ++ escapeXml s.
Proof.
  unfold escapeXml, entity. cbn [replace_char].
  destruct (Ascii.eqb_spec a "&") as [->|Hamp].
  - rewrite !replace_char_app. reflexivity.
  - cbn [replace_char].
    destruct (Ascii.eqb_spec a "<") as [->|Hlt].
    + rewrite !replace_char_app. reflexivity.
    + cbn [replace_char].
      destruct (Ascii.eqb_spec a ">") as [->|Hgt].
      * rewrite !replace_char_app. reflexivity.
      * cbn [replace_char].
        destruct (Ascii.eqb_spec a dquote) as [->|Hq]; reflexivity.
Qed.

Lemma occurs_app (c : ascii) (s1 s2 : string) :
  occurs c (s1 ++ s2) <-> occurs c s1 \/ occurs c s2.
Proof.
  unfold occurs. induction s1 as [|a s1 IH]; simpl.
  - tauto.
  - rewrite IH. tauto.
Qed.

Lemma entity_cases (a : ascii) :
  (a = "&"%char /\ entity a = "&amp;") \/
  (a = "<"%char /\ entity a = "&lt;") \/
  (a = ">"%char /\ entity a = "&gt;") \/
  (a = dquote /\ entity a = "&quot;") \/
  (a <> "&"%char /\ a <> "<"%char /\ a <> ">"%char /\ a <> dquote /\
   entity a = String a EmptyString).
Proof.
  unfold entity.
  destruct (Ascii.eqb_spec a "&") as [->|Hamp]; [left; split; reflexivity|].
  destruct (Ascii.eqb_spec a "<") as [->|Hlt];
    [right; left; split; reflexivity|].
  destruct (Ascii.eqb_spec a ">") as [->|Hgt];
    [right; right; left; split; reflexivity|].
  destruct (Ascii.eqb_spec a dquote) as [->|Hq];
    [right; right; right; left; split; reflexivity|].
  right; right; right; right. repeat split; assumption.
Qed.

End EscapeFacts.

Section EscapeProperties.
Import Card.
Local Open Scope string_scope.

(** The escaped text holds no [<], no [>] and no double quote. *)
Theorem escapeXml_has_no_markup (str : string) :
  ~ occurs "<" (escapeXml str) /\
  ~ occurs ">" (escapeXml str) /\
  ~ occurs dquote (escapeXml str).
Proof.
  induction str as [|a s (IH1 & IH2 & IH3)].
  - repeat split; intros [].
  - rewrite escapeXml_cons.
    assert (He : ~ occurs "<" (entity a) /\ ~ occurs ">" (entity a)
                 /\ ~ occurs dquote (entity a)).
    { destruct (entity_cases a)
        as [(_ & ->)|[(_ & ->)|[(_ & ->)|[(_ & ->)|(_ & H2 & H3 & H4 & ->)]]]];
        unfold occurs; simpl; repeat split;
        intros H; repeat (destruct H as [H|H]; try discriminate H);
        try (symmetry in H; contradiction); try contradiction. }
    destruct He as (E1 & E2 & E3).
    rewrite !occurs_app. tauto.
Qed.

(** Escaping loses nothing: different texts stay different. *)
Theorem escapeXml_injective (s1 s2 : string) :
  escapeXml s1 = escapeXml s2 -> s1 = s2.
Proof.
  revert s2. induction s1 as [|a s1 IH]; intros [|b s2].
  - reflexivity.
  - rewrite escapeXml_cons. intros H. exfalso.
    destruct (entity_cases b)
      as [(_ & E)|[(_ & E)|[(_ & E)|[(_ & E)|(_ & _ & _ & _ & E)]]]];
      rewrite E in H; discriminate H.
  - rewrite escapeXml_cons. intros H. exfalso.
    destruct (entity_cases a)
      as [(_ & E)|[(_ & E)|[(_ & E)|[(_ & E)|(_ & _ & _ & _ & E)]]]];
      rewrite E in H; discriminate H.
  - rewrite !escapeXml_cons. intros H.
    assert (Hab : a = b /\ escapeXml s1 = escapeXml s2).
    { destruct (entity_cases a)
        as [(Ha & Ea)|[(Ha & Ea)|[(Ha & Ea)|[(Ha & Ea)
            |(Ha1 & Ha2 & Ha3 & Ha4 & Ea)]]]];
      destruct (entity_cases b)
        as [(Hb & Eb)|[(Hb & Eb)|[(Hb & Eb)|[(Hb & Eb)
            |(Hb1 & Hb2 & Hb3 & Hb4 & Eb)]]]];
      rewrite Ea, Eb in H; simpl in H;
      try discriminate H;
      try (injection H as H; subst; split; [reflexivity | exact H]);
      try (injection H as H0 H; subst; split; [reflexivity | exact H]);
      try (injection H as H0 H; exfalso; congruence). }
    destruct Hab as [-> Hs]. f_equal. apply IH. exact Hs.
Qed.

Lemma escapeXml_injective_witness :
  escapeXml "a<b" = escapeXml "a<b" /\ "a<b" = "a<b".
Proof.
  assert (H : escapeXml "a<b" = escapeXml "a<b") by reflexivity.
  split; [exact H|].
  exact (escapeXml_injective "a<b" "a<b" H).
Defined.

End EscapeProperties.

Section CardFacts.
Import Card.

Lemma length_substring0 (n : nat) (s : string) :
  String.length (substring 0 n s) = Nat.min n (String.length s).
Proof.
  revert s. induction n as [|n IH]; intros [|a s]; simpl; try reflexivity.
  rewrite IH. reflexivity.
Qed.

Lemma length_append (s1 s2 : string) :
  String.length (s1 ++ s2)%string
  = (String.length s1 + String.length s2)%nat.
Proof.
  induction s1 as [|a s1 IH]; simpl; [reflexivity | rewrite IH; reflexivity].
Qed.

(** The name shown on a row is never longer than 38 characters; a name of
    at most 38 characters is shown as it is, and a longer one keeps its
    first 35 characters. *)
Theorem displayName_fits (name : string) :
  (String.length (displayName name) <= 38)%nat /\
  ((String.length name <= 38)%nat -> displayName name = name) /\
  (forall i, (i < 35)%nat ->
             String.get i (displayName name) = String.get i name).
Proof.
  unfold displayName.
  destruct (Nat.ltb_spec 38 (String.length name)) as [Hlong|Hshort].
  - split; [|split].
    + rewrite length_append, length_substring0.
      change (String.length "...") with 3%nat. lia.
    + intros H. lia.
    + intros i Hi.
      rewrite <- append_correct1
        by (rewrite length_substring0; lia).
      rewrite substring_correct1 by exact Hi.
      rewrite Nat.add_0_r. reflexivity.
  - split; [exact Hshort|]. split; reflexivity.
Qed.

(** The rows of the card are stacked without overlap between the top and
    the bottom padding, and every row but the last has a divider. *)
Theorem rows_stacked_inside_card (repos : list Contrib.Repo) (i : nat)
    (Hi : (i < length repos)%nat) :
  PADDING_TOP <= row_y i /\
  row_y i + ROW_HEIGHT <= HEIGHT repos - PADDING_BOTTOM /\
  (forall j, (i < j)%nat -> row_y i + ROW_HEIGHT <= row_y j) /\
  (has_divider repos i = true <-> (S i < length repos)%nat).
Proof.
  unfold row_y, HEIGHT, has_divider, PADDING_TOP, PADDING_BOTTOM, ROW_HEIGHT.
  split; [lia|]. split; [lia|]. split; [intros j Hj; lia|].
  rewrite Z.ltb_lt. lia.
Qed.

Lemma rows_stacked_inside_card_witness :
  (1 < length (Contrib.main_rows (Num 2) three_repos))%nat /\
  PADDING_TOP <= row_y 1 /\
  row_y 1 + ROW_HEIGHT
    <= HEIGHT (Contrib.main_rows (Num 2) three_repos) - PADDING_BOTTOM.
Proof.
  assert (H : (1 < length (Contrib.main_rows (Num 2) three_repos))%nat)
    by (simpl; lia).
  split; [exact H|].
  destruct (rows_stacked_inside_card _ 1%nat H) as (H1 & H2 & _).
  split; assumption.
Defined.

(** More stars never give a lower rank. *)
Theorem getRank_monotone (stars1 stars2 : Z) (Hle : stars1 <= stars2) :
  rank_level (label (getRank stars1)) <= rank_level (label (getRank stars2)).
Proof.
  unfold getRank.
  destruct (Z.leb_spec 10000 stars1), (Z.leb_spec 1000 stars1),
           (Z.leb_spec 500 stars1), (Z.leb_spec 100 stars1),
           (Z.leb_spec 50 stars1);
  destruct (Z.leb_spec 10000 stars2), (Z.leb_spec 1000 stars2),
           (Z.leb_spec 500 stars2), (Z.leb_spec 100 stars2),
           (Z.leb_spec 50 stars2);
  try lia; vm_compute; discriminate.
Qed.

Lemma getRank_monotone_witness :
  99 <= 100 /\
  rank_level (label (getRank 99)) <= rank_level (label (getRank 100)).
Proof.
  assert (H : 99 <= 100) by lia.
  split; [exact H|].
  exact (getRank_monotone 99 100 H).
Defined.

End CardFacts.

(* ================================================================== *)
(** ** The year windows and the output directory *)
(* ================================================================== *)

Section MainFacts.

(** With fuel for all its iterations, the year loop issues one window per
    year from the start year to the current year, each from the first of
    January of its year to the first of January of the next year (the
    minimum in [to] never takes effect); there is no window when the
    start year is after the current year. *)
Theorem year_windows_tile (fuel : nat) (startYear currentYear : Z)
    (Hfuel : currentYear - startYear + 1 <= Z.of_nat fuel) :
  year_loop fuel startYear currentYear
  = map (fun i => (startYear + Z.of_nat i, startYear + Z.of_nat i + 1))
        (seq 0 (Z.to_nat (currentYear - startYear + 1))).
Proof.
  revert startYear Hfuel. induction fuel as [|fuel IH]; intros startYear H.
  - replace (Z.to_nat (currentYear - startYear + 1)) with O by lia.
    reflexivity.
  - cbn [year_loop].
    destruct (Z.leb_spec startYear currentYear) as [Hle|Hgt].
    + replace (Z.to_nat (currentYear - startYear + 1))
        with (S (Z.to_nat (currentYear - (startYear + 1) + 1))) by lia.
      cbn [seq map]. f_equal.
      * f_equal; lia.
      * rewrite IH by lia. rewrite <- seq_shift, map_map.
        apply map_ext. intros i. f_equal; lia.
    + replace (Z.to_nat (currentYear - startYear + 1)) with O by lia.
      reflexivity.
Qed.

Lemma year_windows_tile_witness :
  2022 - 2020 + 1 <= Z.of_nat 3 /\
  year_loop 3 2020 2022 = [(2020, 2021); (2021, 2022); (2022, 2023)].
Proof.
  assert (H : 2022 - 2020 + 1 <= Z.of_nat 3) by (simpl; lia).
  split; [exact H|].
  exact (year_windows_tile 3 2020 2022 H).
Defined.

Lemma split_slash_nonempty (s : string) : split_slash s <> [].
Proof.
  destruct s as [|a s]; simpl; [discriminate|].
  destruct (Ascii.eqb a "/"); [discriminate|].
  destruct (split_slash s); discriminate.
Qed.

Lemma split_slash_plain (s : string) :
  ~ occurs "/" s -> split_slash s = [s].
Proof.
  unfold occurs. induction s as [|a s IH]; simpl; intros H; [reflexivity|].
  destruct (Ascii.eqb_spec a "/") as [->|Hne].
  - exfalso. apply H. left. reflexivity.
  - rewrite IH; [reflexivity|]. intros Hin. apply H. right. exact Hin.
Qed.

Lemma split_slash_path (dir base : string) :
  ~ occurs "/" base ->
  split_slash (dir ++ String "/" base)%string = split_slash dir ++ [base].
Proof.
  intros H. induction dir as [|a dir IH]; simpl.
  - rewrite (split_slash_plain base H). reflexivity.
  - rewrite IH. destruct (Ascii.eqb a "/"); [reflexivity|].
    destruct (split_slash dir) as [|p ps] eqn:E; [|reflexivity].
    exfalso. exact (split_slash_nonempty dir E).
Qed.

Lemma join_split_slash (s : string) :
  String.concat "/" (split_slash s) = s.
Proof.
  induction s as [|a s IH]; [reflexivity|].
  cbn [split_slash].
  pose proof (split_slash_nonempty s) as Hne.
  destruct (split_slash s) as [|p ps]; [congruence|].
  destruct (Ascii.eqb_spec a "/") as [->|Hna].
  - change (String.concat "/" ("" :: p :: ps))
      with ("" ++ "/" ++ String.concat "/" (p :: ps))%string.
    rewrite IH. reflexivity.
  - destruct ps as [|q qs].
    + simpl in IH. subst s. reflexivity.
    + change (String.concat "/" (String a p :: q :: qs))
        with (String a (p ++ "/" ++ String.concat "/" (q :: qs)))%string.
      change (String.concat "/" (p :: q :: qs))
        with (p ++ "/" ++ String.concat "/" (q :: qs))%string in IH.
      rewrite IH. reflexivity.
Qed.

Lemma slice0_drop_last {A : Type} (l : list A) (x : A) :
  JsArray.slice0 (Num (-1)) (l ++ [x]) = l.
Proof.
  unfold JsArray.slice0. rewrite length_app. simpl.
  replace (Z.to_nat (Z.max (Z.of_nat (length l + 1) + -1) 0))
    with (length l) by lia.
  rewrite firstn_app, Nat.sub_diag, firstn_all. simpl.
  apply app_nil_r.
Qed.

(** The directory that [main] creates is the output path up to its last
    slash; for an output path without slash it is the empty string, which
    is falsy, so that [if (dir)] creates no directory. *)
Theorem output_dir_is_parent (dir base : string)
    (Hbase : ~ occurs "/" base) :
  output_dir (dir ++ String "/" base)%string = dir /\
  output_dir base = "" /\
  truthy (Some (output_dir base)) = false.
Proof.
  assert (Hplain : output_dir base = "").
  { unfold output_dir. rewrite (split_slash_plain base Hbase).
    change [base] with ([] ++ [base]). rewrite slice0_drop_last.
    reflexivity. }
  split; [|split; [exact Hplain | rewrite Hplain; reflexivity]].
  unfold output_dir.
  rewrite (split_slash_path dir base Hbase), slice0_drop_last.
  apply join_split_slash.
Qed.

Lemma output_dir_is_parent_witness :
  ~ occurs "/" "streak.svg" /\
  output_dir "profile/streak.svg" = "profile" /\
  output_dir "streak.svg" = "" /\
  truthy (Some (output_dir "streak.svg")) = false.
Proof.
  assert (H : ~ occurs "/" "streak.svg").
  { unfold occurs. simpl. intros K.
    repeat (destruct K as [K|K]; [discriminate K|]). exact K. }
  split; [exact H|].
  exact (output_dir_is_parent "profile" "streak.svg" H).
Defined.

End MainFacts.
